(** * The hybrid tau-leaping solver of GillesPy2's C++ back end

    A shallow embedding of
    [gillespy2/solvers/cpp/c_base/model.h] and
    [gillespy2/solvers/cpp/c_base/tau_hybrid_cpp_solver/TauHybridCSolver.cpp],
    and the properties of the right-hand-side function [f] and of the driver
    [TauHybridCSolver] that the specification states.

    Conventions of the embedding.
    - [double] and [realtype] are IEEE binary64: Rocq's primitive [float].
    - [int] data (stoichiometric changes, the sample index [save_time]) are
      integers of [Z]; array lengths and loop counters are [nat] (the arrays
      of a model are far shorter than 2^31, so the counters do not wrap).
    - A C array, a [std::vector] and the data of an [N_Vector] are lists; an
      access outside the allocated length is undefined behaviour in C++ and
      is the outcome [Fault] here.
    - [while] loops take fuel; running out of it is the outcome [OutOfFuel],
      kept apart from [Fault].
    - Mutation is explicit state passing. *)

From Stdlib Require Import ZArith Lia Bool.
From Stdlib Require Import PrimFloat FloatOps SpecFloat Uint63.
From stdpp Require Import base option list strings.

Local Open Scope Z_scope.

(** ** Outcomes of a run *)

Inductive fault : Type :=
| OutOfBounds (array : string) (index : Z) (len : nat)
| IntOverflow.

Inductive outcome (A : Type) : Type :=
| Done (a : A)
| Fault (e : fault)
| OutOfFuel.

Arguments Done {A} a.
Arguments Fault {A} e.
Arguments OutOfFuel {A}.

Definition bind {A B : Type} (m : outcome A) (k : A -> outcome B) : outcome B :=
  match m with
  | Done a => k a
  | Fault e => Fault e
  | OutOfFuel => OutOfFuel
  end.

Declare Scope outcome_scope.
Delimit Scope outcome_scope with outcome.
Notation "x <- m ;; k" := (bind m (fun x => k))
  (at level 100, m at next level, right associativity) : outcome_scope.
Local Open Scope outcome_scope.

(** ** Arrays *)

(** [a[i]] read. *)
Definition load {A : Type} (array : string) (a : list A) (i : nat) : outcome A :=
  match a !! i with
  | Some x => Done x
  | None => Fault (OutOfBounds array (Z.of_nat i) (length a))
  end.

(** [a[i] = x]. *)
Definition store {A : Type} (array : string) (a : list A) (i : nat) (x : A)
  : outcome (list A) :=
  if decide (i < length a)%nat
  then Done (<[i := x]> a)
  else Fault (OutOfBounds array (Z.of_nat i) (length a)).

(** An [int] used as a subscript. *)
Definition subscript (array : string) (len : nat) (i : Z) : outcome nat :=
  if decide (0 <= i) then Done (Z.to_nat i)
  else Fault (OutOfBounds array i len).

(** [for (i = lo; i < lo + n; ++i) body]. *)
Fixpoint for_range {S : Type} (lo n : nat) (body : nat -> S -> outcome S) (s : S)
  : outcome S :=
  match n with
  | O => Done s
  | Datatypes.S n' => s' <- body lo s ;; for_range (Datatypes.S lo) n' body s'
  end.

(** ** Conversions between [int] and [double] *)

Definition INT_MIN : Z := - 2 ^ 31.
Definition INT_MAX : Z := 2 ^ 31 - 1.

(** [(double) z] for an [int] or [unsigned int] value: exact below 2^53. *)
Definition int_to_double (z : Z) : float :=
  if decide (0 <= z) then PrimFloat.of_uint63 (Uint63.of_Z z)
  else PrimFloat.opp (PrimFloat.of_uint63 (Uint63.of_Z (- z))).

(** [(int) x]: truncation towards zero; undefined when the truncated value
    does not fit an [int] (and for infinities and NaN). *)
Definition double_to_int (x : float) : outcome Z :=
  match Prim2SF x with
  | S754_zero _ => Done 0
  | S754_finite s m e =>
      let v := if decide (0 <= e) then Z.shiftl (Z.pos m) e
               else Z.shiftr (Z.pos m) (- e) in
      let v := if s then - v else v in
      if decide (INT_MIN <= v <= INT_MAX) then Done v else Fault IntOverflow
  | _ => Fault IntOverflow
  end.

(** ** model.h *)

Definition CONTINUOUS : Z := 0.
Definition DISCRETE : Z := 1.
Definition DYNAMIC : Z := 2.

Definition SSA : Z := 1.
Definition ODE : Z := 2.
Definition TAU : Z := 3.
Definition HYBRID : Z := 4.

(** [struct Species]; [initial_population] is an [unsigned int]. *)
Record Species : Type := {
  species_id : nat;
  species_name : string;
  initial_population : Z;
  user_mode : Z;
  partition_mode : Z;
  switch_tol : float;
  switch_min : Z
}.

(** [struct Reaction]. *)
Record Reaction : Type := {
  reaction_id : nat;
  reaction_name : string;
  species_change : list Z;
  affected_reactions : list nat
}.

(** [struct Model]. *)
Record Model : Type := {
  number_species : nat;
  species : list Species;
  number_reactions : nat;
  reactions : list Reaction
}.

(** [class IPropensityFunction]: the three virtual evaluators. *)
Record IPropensityFunction : Type := {
  evaluate : nat -> list Z -> float;
  TauEvaluate : nat -> list Z -> float;
  ODEEvaluate : Z -> list float -> float
}.

(** [struct Simulation].  The three-dimensional views are the ones the solver
    subscripts; the flat backing arrays are reached only through them. *)
Record Simulation : Type := {
  model : Model;
  type : Z;
  timeline : list float;
  end_time : float;
  current_time : float;
  random_seed : Z;
  number_timesteps : nat;
  number_trajectories : nat;
  trajectories : list (list (list Z));
  trajectoriesODE : list (list (list float));
  trajectoriesHYBRID : list (list (list Z));
  propensity_function : IPropensityFunction
}.

(** ** TauHybridCSolver.cpp: the right-hand side *)

Record UserData : Type := { my_sim : Simulation }.

(** The state the two loops of [f] work on: the array behind [y], the array
    behind [ydot], and the local [concentrations]. *)
Record rhs_state : Type := {
  rhs_Y : list float;
  rhs_dydt : list float;
  rhs_concentrations : list float
}.

(** Lines 307-310. *)
Definition f_populate (spec_i : nat) (st : rhs_state) : outcome rhs_state :=
  y <- load "Y" (rhs_Y st) spec_i ;;
  concentrations <- store "concentrations" (rhs_concentrations st) spec_i y ;;
  dydt <- store "dydt" (rhs_dydt st) spec_i 0%float ;;
  Done {| rhs_Y := rhs_Y st; rhs_dydt := dydt; rhs_concentrations := concentrations |}.

(** Lines 328-339, for one species of one reaction. *)
Definition f_species (sim : Simulation) (rxn_i : nat) (propensity : float)
    (spec_i : nat) (dydt : list float) : outcome (list float) :=
  rxn <- load "reactions" (reactions (model sim)) rxn_i ;;
  species_change <- load "species_change" (species_change rxn) spec_i ;;
  if decide (species_change = 0) then Done dydt
  else
    d <- load "dydt" dydt spec_i ;;
    store "dydt" dydt spec_i
      (d + propensity * int_to_double (-1 + 2 * (if decide (species_change > 0) then 1 else 0)))%float.

(** Lines 317-340, for one reaction.  [rxn_offsets] is [&Y[num_species]], so
    [rxn_offsets[rxn_offset_i]] is [Y[num_species + rxn_offset_i]]. *)
Definition f_reaction (sim : Simulation) (rxn_i : nat) (st : rhs_state)
  : outcome rhs_state :=
  let num_species := number_species (model sim) in
  let rxn_offset_i := (rxn_i + num_species)%nat in
  let propensity :=
    ODEEvaluate (propensity_function sim) (Z.of_nat rxn_i) (rhs_concentrations st) in
  y <- load "Y" (rhs_Y st) rxn_offset_i ;;
  Y <- store "Y" (rhs_Y st) (num_species + rxn_offset_i) (y + propensity)%float ;;
  dydt <- for_range 0 (number_species (model sim))
            (f_species sim rxn_i propensity) (rhs_dydt st) ;;
  Done {| rhs_Y := Y; rhs_dydt := dydt; rhs_concentrations := rhs_concentrations st |}.

(** [static int f(realtype t, N_Vector y, N_Vector ydot, void *user_data)]:
    the arrays behind [y] and [ydot] go in and come out. *)
Definition f (t : float) (Y dydt : list float) (user_data : UserData)
  : outcome (list float * list float * Z) :=
  let sim := my_sim user_data in
  let concentrations := replicate (number_species (model sim)) 0%float in
  st <- for_range 0 (number_species (model sim)) f_populate
          {| rhs_Y := Y; rhs_dydt := dydt; rhs_concentrations := concentrations |} ;;
  st <- for_range 0 (number_reactions (model sim)) (f_reaction sim) st ;;
  Done (rhs_Y st, rhs_dydt st, 0).

(** ** The random engine

    [std::mt19937_64]: 312 words of 64 bits and a position.  Seeding follows
    the C++ standard: the first word is the seed, each next word is
    [6364136223846793005 * (x ^ (x >> 62)) + i] modulo 2^64; the default
    constructor seeds with 5489. *)

Record mt19937_64 : Type := {
  mt_words : list Z;
  mt_position : nat
}.

Fixpoint mt_fill (previous : Z) (i : nat) (n : nat) : list Z :=
  match n with
  | O => []
  | Datatypes.S n' =>
      let x := (6364136223846793005 * Z.lxor previous (Z.shiftr previous 62)
                + Z.of_nat i) mod 2 ^ 64 in
      x :: mt_fill x (Datatypes.S i) n'
  end.

Definition mt19937_64_seed (value : Z) : mt19937_64 :=
  let x0 := value mod 2 ^ 64 in
  {| mt_words := x0 :: mt_fill x0 1 311; mt_position := 312 |}.

Definition mt19937_64_default_seed : Z := 5489.

(** [std::mt19937_64 rng;] *)
Definition mt19937_64_default : mt19937_64 :=
  mt19937_64_seed mt19937_64_default_seed.

(** ** The integrator library

    SUNDIALS is outside the sources: its entry points are the fields of a
    record, and the solver is stated over any such record.  A right-hand-side
    function receives the arrays behind [y] and [ydot] and hands both back,
    since the one of this solver writes through [y] as well. *)

Definition N_Vector : Type := list float.

(** [N_VNew_Serial(n)]: [n] cells, not yet assigned. *)
Definition N_VNew_Serial (n : nat) : N_Vector := replicate n 0%float.

Definition CVRhsFn : Type :=
  float -> list float -> list float -> UserData -> outcome (list float * list float * Z).

Definition CV_BDF : Z := 2.
Definition CV_NORMAL : Z := 1.

Record Sundials : Type := {
  cvode_memory : Type;
  SUNLinearSolver : Type;
  CVodeCreate : Z -> cvode_memory;
  CVodeInit : cvode_memory -> CVRhsFn -> float -> N_Vector -> cvode_memory * Z;
  CVodeSStolerances : cvode_memory -> float -> float -> cvode_memory * Z;
  SUNLinSol_SPGMR : N_Vector -> Z -> Z -> SUNLinearSolver;
  CVodeSetUserData : cvode_memory -> UserData -> cvode_memory * Z;
  CVodeSetLinearSolver : cvode_memory -> SUNLinearSolver -> cvode_memory * Z;
  (** [CVode(mem, tout, yout, &tret, itask)]: the new memory, [yout], [tret]
      and the flag. *)
  CVode : cvode_memory -> float -> N_Vector -> Z
          -> outcome (cvode_memory * N_Vector * float * Z)
}.

(** ** Process-wide state *)

Inductive sighandler : Type := SIG_DFL | signalHandler.

(** [Gillespy::interrupted] and the disposition of SIGINT.  The flag is read
    at the top of each trajectory; no signal is delivered during a call. *)
Record Process : Type := {
  interrupted : bool;
  sigint : sighandler
}.

Definition signal_SIGINT (h : sighandler) (p : Process) : Process :=
  {| interrupted := interrupted p; sigint := h |}.

(** ** Updates of [*simulation] *)

Definition set_current_time (sim : Simulation) (t : float) : Simulation :=
  {| model := model sim; type := type sim; timeline := timeline sim;
     end_time := end_time sim; current_time := t;
     random_seed := random_seed sim;
     number_timesteps := number_timesteps sim;
     number_trajectories := number_trajectories sim;
     trajectories := trajectories sim;
     trajectoriesODE := trajectoriesODE sim;
     trajectoriesHYBRID := trajectoriesHYBRID sim;
     propensity_function := propensity_function sim |}.

Definition set_trajectoriesODE (sim : Simulation) (b : list (list (list float)))
  : Simulation :=
  {| model := model sim; type := type sim; timeline := timeline sim;
     end_time := end_time sim; current_time := current_time sim;
     random_seed := random_seed sim;
     number_timesteps := number_timesteps sim;
     number_trajectories := number_trajectories sim;
     trajectories := trajectories sim;
     trajectoriesODE := b;
     trajectoriesHYBRID := trajectoriesHYBRID sim;
     propensity_function := propensity_function sim |}.

(** [simulation->trajectoriesODE[traj][k][s] = x]. *)
Definition store_trajectoriesODE (sim : Simulation) (traj : nat) (k : Z)
    (s : nat) (x : float) : outcome Simulation :=
  plane <- load "trajectoriesODE" (trajectoriesODE sim) traj ;;
  k <- subscript "trajectoriesODE[traj]" (length plane) k ;;
  row <- load "trajectoriesODE[traj]" plane k ;;
  row <- store "trajectoriesODE[traj][k]" row s x ;;
  Done (set_trajectoriesODE sim (<[traj := <[k := row]> plane]> (trajectoriesODE sim))).

(** ** TauHybridCSolver.cpp: the driver *)

(** [for (i = lo; cond(i); ++i) body]. *)
Fixpoint for_loop {S : Type} (fuel : nat) (cond : nat -> bool)
    (body : nat -> S -> outcome S) (i : nat) (s : S) : outcome S :=
  match fuel with
  | O => OutOfFuel
  | Datatypes.S fuel' =>
      if cond i
      then s' <- body i s ;; for_loop fuel' cond body (Datatypes.S i) s'
      else Done s
  end.

(** [for (i = lo; i < lo + n; ++i) { body; if (...) break; }]: the body
    answers [true] to break. *)
Fixpoint for_range_break {S : Type} (lo n : nat)
    (body : nat -> S -> outcome (bool * S)) (s : S) : outcome S :=
  match n with
  | O => Done s
  | Datatypes.S n' =>
      r <- body lo s ;;
      if fst r then Done (snd r)
      else for_range_break (Datatypes.S lo) n' body (snd r)
  end.

(** [int] addition; signed overflow is undefined. *)
Definition int_add (a b : Z) : outcome Z :=
  if decide (INT_MIN <= a + b <= INT_MAX) then Done (a + b) else Fault IntOverflow.

(** The locals of [TauHybridCSolver] that live across trajectories, with the
    object behind [simulation]. *)
Record solver_state : Type := {
  simulation_object : Simulation;
  current_state : list float;
  propensity_values : list float;
  rng : mt19937_64
}.

Definition set_simulation (g : solver_state) (sim : Simulation) : solver_state :=
  {| simulation_object := sim; current_state := current_state g;
     propensity_values := propensity_values g; rng := rng g |}.

Definition set_current_state (g : solver_state) (c : list float) : solver_state :=
  {| simulation_object := simulation_object g; current_state := c;
     propensity_values := propensity_values g; rng := rng g |}.

Definition set_rng (g : solver_state) (r : mt19937_64) : solver_state :=
  {| simulation_object := simulation_object g; current_state := current_state g;
     propensity_values := propensity_values g; rng := r |}.

(** Lines 100-120: the declarations at the top of the [if (simulation)]
    block. *)
Definition declare_locals (sim : Simulation) : solver_state :=
  let num_species := number_species (model sim) in
  let num_reactions := number_reactions (model sim) in
  {| simulation_object := sim;
     current_state := replicate num_species 0%float;
     propensity_values := replicate num_reactions 0%float;
     rng := mt19937_64_default |}.

(** Lines 123-126, for one species. *)
Definition copy_initial_state (s : nat) (g : solver_state) : outcome solver_state :=
  sp <- load "species" (species (model (simulation_object g))) s ;;
  sim <- store_trajectoriesODE (simulation_object g) 0 0 s
           (int_to_double (initial_population sp)) ;;
  c <- store "current_state" (current_state g) s
         (int_to_double (initial_population sp)) ;;
  Done (set_current_state (set_simulation g sim) c).

(** Lines 134-136, for one species. *)
Definition reset_current_state (spec_i : nat) (g : solver_state)
  : outcome solver_state :=
  sp <- load "species" (species (model (simulation_object g))) spec_i ;;
  c <- store "current_state" (current_state g) spec_i
         (int_to_double (initial_population sp)) ;;
  Done (set_current_state g c).

Section Driver.

(** The integrator library, the draw [log(uniform(rng))] (the distribution
    of <random> and the logarithm of the C library), and the two tolerance
    macros of a header that is not among the sources. *)
Variable sundials : Sundials.
Variable log_uniform : mt19937_64 -> float * mt19937_64.
Variables GPY_HYBRID_RELTOL GPY_HYBRID_ABSTOL : float.

(** The locals of one trajectory. *)
Record trajectory_state : Type := {
  solver : solver_state;
  y0 : N_Vector;
  cvode_mem : cvode_memory sundials;
  flag : Z;
  next_time : float;
  tau_step : float;
  save_time : Z;
  population_changes : list Z
}.

Definition set_solver (st : trajectory_state) (g : solver_state) :=
  {| solver := g; y0 := y0 st; cvode_mem := cvode_mem st; flag := flag st;
     next_time := next_time st; tau_step := tau_step st;
     save_time := save_time st; population_changes := population_changes st |}.

Definition set_y0 (st : trajectory_state) (y : N_Vector) :=
  {| solver := solver st; y0 := y; cvode_mem := cvode_mem st; flag := flag st;
     next_time := next_time st; tau_step := tau_step st;
     save_time := save_time st; population_changes := population_changes st |}.

Definition set_next_time (st : trajectory_state) (t : float) :=
  {| solver := solver st; y0 := y0 st; cvode_mem := cvode_mem st; flag := flag st;
     next_time := t; tau_step := tau_step st;
     save_time := save_time st; population_changes := population_changes st |}.

Definition set_tau_step (st : trajectory_state) (t : float) :=
  {| solver := solver st; y0 := y0 st; cvode_mem := cvode_mem st; flag := flag st;
     next_time := next_time st; tau_step := t;
     save_time := save_time st; population_changes := population_changes st |}.

Definition set_save_time (st : trajectory_state) (k : Z) :=
  {| solver := solver st; y0 := y0 st; cvode_mem := cvode_mem st; flag := flag st;
     next_time := next_time st; tau_step := tau_step st;
     save_time := k; population_changes := population_changes st |}.

Definition set_population_changes (st : trajectory_state) (p : list Z) :=
  {| solver := solver st; y0 := y0 st; cvode_mem := cvode_mem st; flag := flag st;
     next_time := next_time st; tau_step := tau_step st;
     save_time := save_time st; population_changes := p |}.

Definition num_species_of (st : trajectory_state) : nat :=
  number_species (model (simulation_object (solver st))).

(** *** Reconciliation, lines 213-256 *)

(** Lines 219-220. *)
Definition clear_population_change (p_i : nat) (st : trajectory_state)
  : outcome trajectory_state :=
  p <- store "population_changes" (population_changes st) p_i 0 ;;
  Done (set_population_changes st p).

(** Lines 227-232, for one species; the answer [true] is the [break]. *)
Definition fire_species (rxn_i spec_i : nat) (st : trajectory_state)
  : outcome (bool * trajectory_state) :=
  rxn <- load "reactions" (reactions (model (simulation_object (solver st)))) rxn_i ;;
  change <- load "species_change" (species_change rxn) spec_i ;;
  old <- load "population_changes" (population_changes st) spec_i ;;
  new <- int_add old change ;;
  p <- store "population_changes" (population_changes st) spec_i new ;;
  c <- load "current_state" (current_state (solver st)) spec_i ;;
  Done ((c + int_to_double new <? 0)%float, set_population_changes st p).

(** Lines 224-237: [while (rxn_state >= 0)]. *)
Fixpoint fire_while (fuel : nat) (rxn_i : nat) (rxn_state : float)
    (st : trajectory_state) : outcome (float * trajectory_state) :=
  match fuel with
  | O => OutOfFuel
  | Datatypes.S fuel' =>
      if (0 <=? rxn_state)%float
      then
        st <- for_range_break 0 (num_species_of st) (fire_species rxn_i) st ;;
        let draw := log_uniform (rng (solver st)) in
        fire_while fuel' rxn_i (rxn_state + fst draw)%float
          (set_solver st (set_rng (solver st) (snd draw)))
      else Done (rxn_state, st)
  end.

(** Lines 242-244, for one species. *)
Definition commit_population_change (p_i : nat) (st : trajectory_state)
  : outcome trajectory_state :=
  c <- load "current_state" (current_state (solver st)) p_i ;;
  p <- load "population_changes" (population_changes st) p_i ;;
  c <- store "current_state" (current_state (solver st)) p_i
         (c + int_to_double p)%float ;;
  Done (set_solver st (set_current_state (solver st) c)).

(** Lines 214-255: the body of the reconciliation loop.  [rxn_offsets] is
    [NV_DATA_S(y0) + num_species], so [rxn_offsets[rxn_i]] is the cell
    [num_species + rxn_i] of [y0]. *)
Definition reconcile_reaction (fuel : nat) (rxn_i : nat) (st : trajectory_state)
  : outcome trajectory_state :=
  let num_species := num_species_of st in
  rxn_state <- load "y0" (y0 st) (num_species + rxn_i) ;;
  st <- for_range 0 num_species clear_population_change st ;;
  r <- fire_while fuel rxn_i rxn_state st ;;
  let rxn_state := fst r in
  let st := snd r in
  if (rxn_state <? 0)%float
  then
    st <- for_range 0 num_species commit_population_change st ;;
    y <- store "y0" (y0 st) (num_species + rxn_i) rxn_state ;;
    Done (set_y0 st y)
  else
    Done (set_tau_step
            (set_next_time st (current_time (simulation_object (solver st))))
            (tau_step st * 0.5)%float).

(** Line 213: [for (int rxn_i = num_species; false && rxn_i <
    rxn_offset_boundary; ++rxn_i)]. *)
Definition reconcile (fuel : nat) (st : trajectory_state)
  : outcome trajectory_state :=
  let num_species := num_species_of st in
  let num_reactions := number_reactions (model (simulation_object (solver st))) in
  let rxn_offset_boundary := (num_species + num_reactions)%nat in
  for_loop fuel
    (fun rxn_i => false && bool_decide (rxn_i < rxn_offset_boundary)%nat)
    (reconcile_reaction fuel) num_species st.

(** *** Output, lines 261-267 *)

(** Line 264. *)
Definition emit_species (traj : nat) (spec_i : nat) (st : trajectory_state)
  : outcome trajectory_state :=
  y <- load "y0" (y0 st) spec_i ;;
  sim <- store_trajectoriesODE (simulation_object (solver st)) traj (save_time st)
           spec_i y ;;
  Done (set_solver st (set_simulation (solver st) sim)).

(** Lines 261-267; [save_time] is an [int] and [increment] a [double], so
    [save_time += increment] converts the sum back to [int]. *)
Fixpoint emit_samples (fuel : nat) (traj : nat) (increment : float)
    (st : trajectory_state) : outcome trajectory_state :=
  match fuel with
  | O => OutOfFuel
  | Datatypes.S fuel' =>
      if (int_to_double (save_time st) <=? next_time st)%float
      then
        st <- for_range 0 (num_species_of st) (emit_species traj) st ;;
        k <- double_to_int (int_to_double (save_time st) + increment)%float ;;
        emit_samples fuel' traj increment (set_save_time st k)
      else Done st
  end.

(** *** The step loop, lines 192-269 *)

(** One pass through the body of [while (current_time < end_time)]. *)
Definition simulation_step (fuel : nat) (traj : nat) (increment : float)
    (st : trajectory_state) : outcome trajectory_state :=
  let st := set_next_time st
              (current_time (simulation_object (solver st)) + tau_step st)%float in
  r <- CVode sundials (cvode_mem st) (next_time st) (y0 st) CV_NORMAL ;;
  let st :=
    {| solver := solver st; y0 := snd (fst (fst r)); cvode_mem := fst (fst (fst r));
       flag := snd r; next_time := snd (fst r); tau_step := tau_step st;
       save_time := save_time st; population_changes := population_changes st |} in
  st <- reconcile fuel st ;;
  let st := set_solver st
              (set_simulation (solver st)
                 (set_current_time (simulation_object (solver st)) (next_time st))) in
  emit_samples fuel traj increment st.

(** [while (simulation->current_time < simulation->end_time)]; the inner
    loops of each pass get [fuel]. *)
Fixpoint step_loop (steps : nat) (fuel : nat) (traj : nat) (increment : float)
    (st : trajectory_state) : outcome trajectory_state :=
  match steps with
  | O => OutOfFuel
  | Datatypes.S steps' =>
      if (current_time (simulation_object (solver st))
            <? end_time (simulation_object (solver st)))%float
      then
        st <- simulation_step fuel traj increment st ;;
        step_loop steps' fuel traj increment st
      else Done st
  end.

(** *** One trajectory, lines 133-277 *)

(** Lines 156-158. *)
Definition init_concentration (sim : Simulation) (spec_i : nat) (y : N_Vector)
  : outcome N_Vector :=
  sp <- load "species" (species (model sim)) spec_i ;;
  store "y0" y spec_i (int_to_double (initial_population sp)).

(** Lines 162-169, for one cell. *)
Definition init_rxn_offset (rxn_i : nat) (s : N_Vector * mt19937_64)
  : outcome (N_Vector * mt19937_64) :=
  let draw := log_uniform (snd s) in
  y <- store "y0" (fst s) rxn_i (fst draw) ;;
  Done (y, snd draw).

(** Lines 151-169: the integration vector of a trajectory. *)
Definition init_y0 (sim : Simulation) (r : mt19937_64)
  : outcome (N_Vector * mt19937_64) :=
  let num_species := number_species (model sim) in
  let num_reactions := number_reactions (model sim) in
  let y0 := N_VNew_Serial num_species in
  y0 <- for_range 0 num_species (init_concentration sim) y0 ;;
  for_range num_species num_reactions init_rxn_offset (y0, r).

(** Lines 173-182: the integrator of a trajectory. *)
Definition init_integrator (data : UserData) (y0 : N_Vector)
  : cvode_memory sundials * Z :=
  let cvode_mem := CVodeCreate sundials CV_BDF in
  let t0 := 0%float in
  let r := CVodeInit sundials cvode_mem f t0 y0 in
  let r := CVodeSStolerances sundials (fst r) GPY_HYBRID_RELTOL GPY_HYBRID_ABSTOL in
  let LS := SUNLinSol_SPGMR sundials y0 0 0 in
  let r := CVodeSetUserData sundials (fst r) data in
  CVodeSetLinearSolver sundials (fst r) LS.

(** The body of the trajectory loop after the test of [interrupted]. *)
Definition run_trajectory (fuel : nat) (increment : float) (traj : nat)
    (g : solver_state) : outcome solver_state :=
  let num_species := number_species (model (simulation_object g)) in
  g <- for_range 0 num_species reset_current_state g ;;
  let data := {| my_sim := simulation_object g |} in
  yr <- init_y0 (simulation_object g) (rng g) ;;
  let g := set_rng g (snd yr) in
  let m := init_integrator data (fst yr) in
  st <- step_loop fuel fuel traj increment
          {| solver := g; y0 := fst yr; cvode_mem := fst m; flag := snd m;
             next_time := 0%float; tau_step := increment; save_time := 0;
             population_changes := replicate num_species 0 |} ;;
  Done (solver st).

(** Lines 128-278. *)
Definition run_trajectories (fuel : nat) (increment : float) (p : Process)
    (g : solver_state) : outcome solver_state :=
  for_range_break 0 (number_trajectories (simulation_object g))
    (fun traj g =>
       if interrupted p then Done (true, g)
       else g <- run_trajectory fuel increment traj g ;; Done (false, g))
    g.

(** [void TauHybridCSolver(Gillespy::Simulation *simulation, const double
    tau_tol)]; a null pointer is [None]. *)
Definition TauHybridCSolver (fuel : nat) (simulation : option Simulation)
    (tau_tol : float) (p : Process) : outcome (option Simulation * Process) :=
  let p := signal_SIGINT signalHandler p in
  match simulation with
  | None => Done (None, p)
  | Some sim =>
      t1 <- load "timeline" (timeline sim) 1 ;;
      t0 <- load "timeline" (timeline sim) 0 ;;
      let increment := (t1 - t0)%float in
      let g := declare_locals sim in
      g <- for_range 0 (number_species (model sim)) copy_initial_state g ;;
      g <- run_trajectories fuel increment p g ;;
      Done (Some (simulation_object g), p)
  end.

End Driver.

(** ** What the specification says, in its own words *)

(** The stoichiometric change of species [s] in reaction [r]. *)
Definition nu (sim : Simulation) (r s : nat) : Z :=
  match reactions (model sim) !! r with
  | Some rxn => default 0 (species_change rxn !! s)
  | None => 0
  end.

(** The branchless sign, [(-1 + 2 * [nu > 0])]. *)
Definition sign_of_change (c : Z) : float :=
  int_to_double (-1 + 2 * (if decide (c > 0) then 1 else 0)).

(** What reaction [r] adds to the derivative [d] of species [s]. *)
Definition add_signed (sim : Simulation) (x : list float) (r s : nat) (d : float)
  : float :=
  if decide (nu sim r s = 0) then d
  else (d + ODEEvaluate (propensity_function sim) (Z.of_nat r) x
            * sign_of_change (nu sim r s))%float.

(** The concentration derivative of species [s] at the concentrations [x]:
    the propensities of the first [n] reactions that change [s], each times
    the sign of the change, added to zero in the order of the reactions. *)
Definition signed_propensity_sum (sim : Simulation) (x : list float) (s : nat)
    (n : nat) : float :=
  fold_left (fun acc r => add_signed sim x r s acc) (seq 0 n) 0%float.

(** The arrays of a model are as long as its counts say. *)
Definition model_well_sized (m : Model) : Prop :=
  (number_species m <= length (species m))%nat /\
  (number_reactions m <= length (reactions m))%nat /\
  forall r rxn, (r < number_reactions m)%nat -> reactions m !! r = Some rxn ->
    (number_species m <= length (species_change rxn))%nat.

Arguments solver {sundials} _.
Arguments y0 {sundials} _.
Arguments cvode_mem {sundials} _.
Arguments flag {sundials} _.
Arguments next_time {sundials} _.
Arguments tau_step {sundials} _.
Arguments save_time {sundials} _.
Arguments population_changes {sundials} _.
Arguments set_solver {sundials} _ _.
Arguments set_y0 {sundials} _ _.
Arguments set_next_time {sundials} _ _.
Arguments set_tau_step {sundials} _ _.
Arguments set_save_time {sundials} _ _.
Arguments set_population_changes {sundials} _ _.
Arguments num_species_of {sundials} _.

(** The reconciliation of one reaction as section 4.5 of the specification
    words it: fire while the offset is not negative, reject as soon as a
    projected population is negative, commit on acceptance.  The answer
    [None] is the rejection, which leaves the state untouched. *)
Fixpoint spec_fire (log_uniform : mt19937_64 -> float * mt19937_64) (fuel : nat)
    (nu_r : list Z) (pop : list float) (changes : list Z) (rho : float)
    (r : mt19937_64) : outcome (option (list Z * float * mt19937_64)) :=
  match fuel with
  | O => OutOfFuel
  | Datatypes.S fuel' =>
      if (0 <=? rho)%float
      then
        let changes := zip_with Z.add changes nu_r in
        if existsb (fun pc => (fst pc + int_to_double (snd pc) <? 0)%float)
             (zip pop changes)
        then Done None
        else
          let draw := log_uniform r in
          spec_fire log_uniform fuel' nu_r pop changes (rho + fst draw)%float (snd draw)
      else Done (Some (changes, rho, r))
  end.

Definition spec_reconcile_reaction (log_uniform : mt19937_64 -> float * mt19937_64)
    (fuel : nat) (nu_r : list Z) (pop : list float) (rho : float) (r : mt19937_64)
  : outcome (option (list float * float * mt19937_64)) :=
  x <- spec_fire log_uniform fuel nu_r pop (replicate (length pop) 0) rho r ;;
  match x with
  | Some (changes, rho', r') =>
      Done (Some (zip_with (fun p c => (p + int_to_double c)%float) pop changes,
                  rho', r'))
  | None => Done None
  end.

(** What the specification says of the engine: seeded from [random_seed]
    when that field is not zero. *)
Definition seeded_from_random_seed (sim : Simulation) (r : mt19937_64) : Prop :=
  random_seed sim <> 0 -> r = mt19937_64_seed (random_seed sim).

(** ** Views of a state *)

(** What the output loop leaves alone: everything but the output buffer of
    the simulation and [save_time]. *)
Definition emission_frame (sundials : Sundials) (st : trajectory_state sundials) :=
  (set_trajectoriesODE (simulation_object (solver st)) [],
   current_state (solver st), propensity_values (solver st), rng (solver st),
   y0 st, cvode_mem st, flag st, next_time st,
   tau_step st, population_changes st).

(** What clearing and firing leave alone. *)
Definition firing_frame (sundials : Sundials) (st : trajectory_state sundials) :=
  (simulation_object (solver st), current_state (solver st), y0 st,
   tau_step st, next_time st).

(** What the commit of the population changes leaves alone. *)
Definition commit_frame (sundials : Sundials) (st : trajectory_state sundials) :=
  (simulation_object (solver st), y0 st, tau_step st, next_time st,
   population_changes st).

(** The simulation with another value in [random_seed]. *)
Definition set_random_seed (sim : Simulation) (seed : Z) : Simulation :=
  {| model := model sim; type := type sim; timeline := timeline sim;
     end_time := end_time sim; current_time := current_time sim;
     random_seed := seed;
     number_timesteps := number_timesteps sim;
     number_trajectories := number_trajectories sim;
     trajectories := trajectories sim;
     trajectoriesODE := trajectoriesODE sim;
     trajectoriesHYBRID := trajectoriesHYBRID sim;
     propensity_function := propensity_function sim |}.

Definition reseed_solver (seed : Z) (g : solver_state) : solver_state :=
  set_simulation g (set_random_seed (simulation_object g) seed).

Definition reseed_trajectory (sundials : Sundials) (seed : Z)
    (st : trajectory_state sundials) : trajectory_state sundials :=
  set_solver st (reseed_solver seed (solver st)).

Definition outcome_map {A B : Type} (h : A -> B) (m : outcome A) : outcome B :=
  x <- m ;; Done (h x).

(** ** Stand-ins to run examples *)

(** A single explicit Euler step from the time reached to [tout]: enough of an
    integrator to run the solver on small inputs. *)
Record euler_memory : Type := {
  euler_rhs : option CVRhsFn;
  euler_data : option UserData;
  euler_t : float
}.

Definition euler_CVode (m : euler_memory) (tout : float) (y : N_Vector) (itask : Z)
  : outcome (euler_memory * N_Vector * float * Z) :=
  match euler_rhs m, euler_data m with
  | Some rhs, Some d =>
      r <- rhs (euler_t m) y (N_VNew_Serial (length y)) d ;;
      let y' := fst (fst r) in
      let ydot := snd (fst r) in
      Done ({| euler_rhs := euler_rhs m; euler_data := euler_data m; euler_t := tout |},
            zip_with (fun a b => (a + (tout - euler_t m) * b)%float) y' ydot,
            tout, 0)
  | _, _ => Done (m, y, euler_t m, -21)
  end.

Definition euler : Sundials :=
  {| cvode_memory := euler_memory;
     SUNLinearSolver := unit;
     CVodeCreate := fun _ =>
       {| euler_rhs := None; euler_data := None; euler_t := 0%float |};
     CVodeInit := fun m rhs t0 _ =>
       ({| euler_rhs := Some rhs; euler_data := euler_data m; euler_t := t0 |}, 0);
     CVodeSStolerances := fun m _ _ => (m, 0);
     SUNLinSol_SPGMR := fun _ _ _ => tt;
     CVodeSetUserData := fun m d =>
       ({| euler_rhs := euler_rhs m; euler_data := Some d; euler_t := euler_t m |}, 0);
     CVodeSetLinearSolver := fun m _ => (m, 0);
     CVode := euler_CVode |}.

(** The integrator of a system at rest: it reaches [tout] and leaves [y] as it
    is.  It keeps nothing of the user data. *)
Definition stationary : Sundials :=
  {| cvode_memory := float;
     SUNLinearSolver := unit;
     CVodeCreate := fun _ => 0%float;
     CVodeInit := fun _ _ t0 _ => (t0, 0);
     CVodeSStolerances := fun m _ _ => (m, 0);
     SUNLinSol_SPGMR := fun _ _ _ => tt;
     CVodeSetUserData := fun m _ => (m, 0);
     CVodeSetLinearSolver := fun m _ => (m, 0);
     CVode := fun _ tout y _ => Done (tout, y, tout, 0) |}.

(** A draw that always answers [x] and moves the engine one position on. *)
Definition fixed_draw (x : float) (r : mt19937_64) : float * mt19937_64 :=
  (x, {| mt_words := mt_words r; mt_position := Datatypes.S (mt_position r) |}).

Definition small_engine : mt19937_64 := {| mt_words := []; mt_position := 0 |}.

Definition example_species (n : string) (population : Z) : Species :=
  {| species_id := 0; species_name := n; initial_population := population;
     user_mode := DYNAMIC; partition_mode := CONTINUOUS;
     switch_tol := 0.03125%float; switch_min := 0 |}.

Definition example_reaction (n : string) (change : list Z) : Reaction :=
  {| reaction_id := 0; reaction_name := n; species_change := change;
     affected_reactions := [] |}.

Definition example_simulation (m : Model) (p : IPropensityFunction)
    (times : list float) (trajectories_count : nat) (seed : Z) : Simulation :=
  {| model := m; type := HYBRID; timeline := times;
     end_time := default 0%float (last times); current_time := 0%float;
     random_seed := seed;
     number_timesteps := length times;
     number_trajectories := trajectories_count;
     trajectories :=
       replicate trajectories_count
         (replicate (length times) (replicate (number_species m) 0));
     trajectoriesODE :=
       replicate trajectories_count
         (replicate (length times) (replicate (number_species m) 0%float));
     trajectoriesHYBRID :=
       replicate trajectories_count
         (replicate (length times) (replicate (number_species m) 0));
     propensity_function := p |}.

(** *** Two species, two reactions: A -> B and 2 B -> nothing *)

Definition conversion_model : Model :=
  {| number_species := 2;
     species := [example_species "A" 8; example_species "B" 4];
     number_reactions := 2;
     reactions := [example_reaction "A_to_B" [-1; 1];
                   example_reaction "B_pairs_decay" [0; -2]] |}.

(** Rates [A / 2] and [B / 4]. *)
Definition conversion_propensity : IPropensityFunction :=
  {| evaluate := fun _ _ => 0%float;
     TauEvaluate := fun _ _ => 0%float;
     ODEEvaluate := fun r x =>
       match r with
       | 0 => (default 0 (x !! 0%nat) * 0.5)%float
       | 1 => (default 0 (x !! 1%nat) * 0.25)%float
       | _ => 0%float
       end |}.

Definition conversion_simulation : Simulation :=
  example_simulation conversion_model conversion_propensity
    [0%float; 1%float; 2%float] 1 42.

(** *** One species, a birth and a death *)

Definition birth_death_model : Model :=
  {| number_species := 1;
     species := [example_species "A" 3];
     number_reactions := 2;
     reactions := [example_reaction "birth" [1]; example_reaction "death" [-1]] |}.

Definition unit_propensity : IPropensityFunction :=
  {| evaluate := fun _ _ => 1%float;
     TauEvaluate := fun _ _ => 1%float;
     ODEEvaluate := fun _ _ => 1%float |}.

Definition birth_death_simulation : Simulation :=
  example_simulation birth_death_model unit_propensity
    [0%float; 1%float; 2%float] 1 42.

(** A trajectory of the birth-death model just after an advance: population
    [pop], offsets [birth_offset] and [death_offset] in a vector that has room
    for them. *)
Definition birth_death_state (pop birth_offset death_offset : float)
  : trajectory_state stationary :=
  {| solver := {| simulation_object := birth_death_simulation;
                  current_state := [pop];
                  propensity_values := [0%float; 0%float];
                  rng := small_engine |};
     y0 := [pop; birth_offset; death_offset];
     cvode_mem := (1%float : cvode_memory stationary);
     flag := 0;
     next_time := 1%float;
     tau_step := 1%float;
     save_time := 0;
     population_changes := [0] |}.

(** *** No reactions: the first scenario of the specification *)

Definition still_model : Model :=
  {| number_species := 2;
     species := [example_species "A" 5; example_species "B" 7];
     number_reactions := 0;
     reactions := [] |}.

(** Eleven time points from 0 to 1. *)
Definition tenths : list float :=
  map (fun k => (int_to_double (Z.of_nat k) / 10)%float) (seq 0 11).

Definition still_simulation : Simulation :=
  example_simulation still_model unit_propensity tenths 1 42.

(** The same model on the time points 0, 1, 2, for two trajectories. *)
Definition still_simulation_twice : Simulation :=
  example_simulation still_model unit_propensity [0%float; 1%float; 2%float] 2 42.

(** A value for the two tolerance macros. *)
Definition example_tolerance : float := 0.0009765625%float.

(** The same model on the time points 0, 2, 4. *)
Definition still_simulation_by_two : Simulation :=
  example_simulation still_model unit_propensity [0%float; 2%float; 4%float] 1 42.

Definition process_at_start : Process :=
  {| interrupted := false; sigint := SIG_DFL |}.

(** ** The rest of the two files *)

(** model.h, line 20: [bool operator < (const Species &other) const
    { return id < other.id; }]. *)
Definition Species_lt (a b : Species) : bool :=
  bool_decide (species_id a < species_id b)%nat.

(** Neither species is below the other: what an ordered container of species
    takes for the same key. *)
Definition Species_equiv (a b : Species) : Prop :=
  Species_lt a b = false /\ Species_lt b a = false.

(** TauHybridCSolver.cpp, lines 38-41: [void signalHandler(int signum)
    { interrupted = true; }]. *)
Definition run_signalHandler (signum : Z) (p : Process) : Process :=
  {| interrupted := true; sigint := sigint p |}.

(** The initial populations of the species of the model, as the [double]s
    the solver works with. *)
Definition initial_populations (sim : Simulation) : list float :=
  map (fun sp => int_to_double (initial_population sp))
      (take (number_species (model sim)) (species (model sim))).

(** The step loop has work to do: [current_time < end_time]. *)
Definition time_left (sim : Simulation) : bool :=
  (current_time sim <? end_time sim)%float.

(** The fields of a simulation other than [current_time] and the output
    buffer [trajectoriesODE]. *)
Definition fixed_part (sim : Simulation) : Simulation :=
  set_trajectoriesODE (set_current_time sim 0%float) [].

(** The output buffer with the first [n] cells of the row [k] of the
    trajectory [traj] taken from [values]. *)
Definition with_row (buffer : list (list (list float))) (traj k n : nat)
    (values : list float) : list (list (list float)) :=
  match buffer !! traj with
  | Some plane =>
      match plane !! k with
      | Some row =>
          <[traj := <[k := take n values ++ drop n row]> plane]> buffer
      | None => buffer
      end
  | None => buffer
  end.

(** ** What a pass records *)

(** The cell [trajectoriesODE[traj][k][s]] of a simulation, when it exists. *)
Definition output_cell (sim : Simulation) (traj k s : nat) : option float :=
  match trajectoriesODE sim !! traj with
  | Some plane =>
      match plane !! k with
      | Some row => row !! s
      | None => None
      end
  | None => None
  end.

(** A [double] that holds a non-negative integer: zero, or a positive
    finite value [m * 2^e] with no fractional bit. *)
Definition non_negative_integer (x : float) : bool :=
  match Prim2SF x with
  | S754_zero _ => true
  | S754_finite false m e =>
      if decide (0 <= e) then true
      else bool_decide (Z.pos m mod 2 ^ (- e) = 0)
  | _ => false
  end.

(** *** One discrete species that decays: A -> nothing, at the rate [1.5 A] *)

Definition decay_model : Model :=
  {| number_species := 1;
     species := [{| species_id := 0; species_name := "A";
                    initial_population := 1;
                    user_mode := DISCRETE; partition_mode := DISCRETE;
                    switch_tol := 0.03125%float; switch_min := 0 |}];
     number_reactions := 1;
     reactions := [example_reaction "decay" [-1]] |}.

Definition decay_propensity : IPropensityFunction :=
  {| evaluate := fun _ _ => 0%float;
     TauEvaluate := fun _ _ => 0%float;
     ODEEvaluate := fun _ x => (default 0 (x !! 0%nat) * 1.5)%float |}.

Definition decay_simulation : Simulation :=
  example_simulation decay_model decay_propensity
    [0%float; 1%float; 2%float] 1 42.

(** A trajectory of the decay model at time 0, on the explicit Euler step:
    population 1, the offset of the reaction at -0.25, in a vector with room
    for the cell that [f] writes, and the integrator set up as the driver
    sets it up. *)
Definition decay_state : trajectory_state euler :=
  {| solver := {| simulation_object := decay_simulation;
                  current_state := [1%float];
                  propensity_values := [0%float];
                  rng := small_engine |};
     y0 := [1; -0.25; 0]%float;
     cvode_mem :=
       fst (init_integrator euler example_tolerance example_tolerance
              {| my_sim := decay_simulation |} [1; -0.25; 0]%float);
     flag := 0;
     next_time := 0%float;
     tau_step := 1%float;
     save_time := 0;
     population_changes := [0] |}.

(** ** The user data and the integrator *)

Definition set_cvode_mem {sundials : Sundials} (st : trajectory_state sundials)
    (m : cvode_memory sundials) : trajectory_state sundials :=
  {| solver := solver st; y0 := y0 st; cvode_mem := m; flag := flag st;
     next_time := next_time st; tau_step := tau_step st;
     save_time := save_time st; population_changes := population_changes st |}.

(** Two user data that [f] does not tell apart. *)
Definition same_for_f (d d' : UserData) : Prop :=
  forall t Y dydt, f t Y dydt d = f t Y dydt d'.

(** Two runs that end the same way, with related results when they return. *)
Definition outcome_rel {A : Type} (R : A -> A -> Prop) (m m' : outcome A) : Prop :=
  match m, m' with
  | Done a, Done a' => R a a'
  | Fault e, Fault e' => e = e'
  | OutOfFuel, OutOfFuel => True
  | _, _ => False
  end.

(** [CVodeSetUserData] takes a [void *]: the integrator cannot look into the
    user data, it can only hand them to the right-hand side it was given.
    For the solver, whose right-hand side is [f]: there is a relation
    [similar] between integrator memories, kept by every entry point the
    solver calls, under which memories that were given user data that [f]
    does not tell apart are related, and related memories make [CVode]
    answer the same vector, time and flag. *)
Record user_data_is_opaque (sundials : Sundials)
    (similar : cvode_memory sundials -> cvode_memory sundials -> Prop) : Prop := {
  similar_CVodeCreate : forall lmm,
    similar (CVodeCreate sundials lmm) (CVodeCreate sundials lmm);
  similar_CVodeInit : forall m m' t0 y,
    similar m m' ->
    similar (fst (CVodeInit sundials m f t0 y))
            (fst (CVodeInit sundials m' f t0 y)) /\
    snd (CVodeInit sundials m f t0 y) = snd (CVodeInit sundials m' f t0 y);
  similar_CVodeSStolerances : forall m m' reltol abstol,
    similar m m' ->
    similar (fst (CVodeSStolerances sundials m reltol abstol))
            (fst (CVodeSStolerances sundials m' reltol abstol)) /\
    snd (CVodeSStolerances sundials m reltol abstol)
    = snd (CVodeSStolerances sundials m' reltol abstol);
  similar_CVodeSetUserData : forall m m' d d',
    similar m m' -> same_for_f d d' ->
    similar (fst (CVodeSetUserData sundials m d))
            (fst (CVodeSetUserData sundials m' d')) /\
    snd (CVodeSetUserData sundials m d) = snd (CVodeSetUserData sundials m' d');
  similar_CVodeSetLinearSolver : forall m m' LS,
    similar m m' ->
    similar (fst (CVodeSetLinearSolver sundials m LS))
            (fst (CVodeSetLinearSolver sundials m' LS)) /\
    snd (CVodeSetLinearSolver sundials m LS)
    = snd (CVodeSetLinearSolver sundials m' LS);
  similar_CVode : forall m m' tout y itask,
    similar m m' ->
    outcome_rel
      (fun r r' =>
         similar (fst (fst (fst r))) (fst (fst (fst r'))) /\
         snd (fst (fst r)) = snd (fst (fst r')) /\
         snd (fst r) = snd (fst r') /\
         snd r = snd r')
      (CVode sundials m tout y itask) (CVode sundials m' tout y itask)
}.

(** The relation for the explicit Euler step: the same time reached, the
    same right-hand side, which is [f] once it is set, and user data that
    [f] does not tell apart. *)
Definition euler_similar (m m' : euler_memory) : Prop :=
  euler_t m = euler_t m' /\
  euler_rhs m = euler_rhs m' /\
  (euler_rhs m = None \/ euler_rhs m = Some f) /\
  match euler_data m, euler_data m' with
  | None, None => True
  | Some d, Some d' => same_for_f d d'
  | _, _ => False
  end.

(** * Properties *)

(** ** Reasoning about outcomes *)

Lemma bind_Done {A B : Type} (m : outcome A) (k : A -> outcome B) (b : B) :
  bind m k = Done b -> exists a, m = Done a /\ k a = Done b.
Proof. destruct m as [a| |]; simpl; intros H; [eauto | discriminate..]. Qed.

Lemma load_Done {A : Type} (name : string) (a : list A) (i : nat) (x : A) :
  load name a i = Done x <-> a !! i = Some x.
Proof.
  unfold load. destruct (a !! i); split; intros H; try discriminate; congruence.
Qed.

Lemma store_Done {A : Type} (name : string) (a : list A) (i : nat) (x : A)
    (a' : list A) :
  store name a i x = Done a' <-> (i < length a)%nat /\ a' = <[i := x]> a.
Proof.
  unfold store. destruct (decide (i < length a)%nat); split.
  - intros [= <-]. auto.
  - intros [_ ->]. reflexivity.
  - discriminate.
  - intros [? _]. contradiction.
Qed.

Lemma load_in_range {A : Type} (name : string) (a : list A) (i : nat) :
  (i < length a)%nat -> exists x, load name a i = Done x /\ a !! i = Some x.
Proof.
  intros Hi. destruct (lookup_lt_is_Some_2 a i Hi) as [x Hx].
  exists x. split; [apply load_Done|]; assumption.
Qed.

Lemma store_in_range {A : Type} (name : string) (a : list A) (i : nat) (x : A) :
  (i < length a)%nat -> store name a i x = Done (<[i := x]> a).
Proof. intros Hi. apply store_Done. auto. Qed.

(** Take apart a hypothesis that a sequence of steps is [Done]. *)
Ltac done_inv H :=
  repeat match type of H with
         | bind _ _ = Done _ =>
             let a := fresh "a" in
             let Ha := fresh "Ha" in
             apply bind_Done in H; destruct H as (a & Ha & H)
         end.

(** The invariant rule of a counted loop that completes. *)
Lemma for_range_invariant {S : Type} (I : nat -> S -> Prop)
    (body : nat -> S -> outcome S) :
  forall n lo s s',
    I lo s ->
    (forall i t t', (lo <= i < lo + n)%nat -> I i t -> body i t = Done t' ->
                    I (Datatypes.S i) t') ->
    for_range lo n body s = Done s' ->
    I (lo + n)%nat s'.
Proof.
  induction n as [|n IH]; intros lo s s' H0 Hstep Hrun; simpl in Hrun.
  - injection Hrun as <-. now rewrite Nat.add_0_r.
  - apply bind_Done in Hrun. destruct Hrun as (t & Hb & Hrun).
    replace (lo + Datatypes.S n)%nat with (Datatypes.S lo + n)%nat by lia.
    apply (IH (Datatypes.S lo) t s'); [ | | exact Hrun].
    + apply (Hstep lo s t); [lia | exact H0 | exact Hb].
    + intros i u u' Hi. apply Hstep. lia.
Qed.

(** A counted loop completes when its body does under an invariant. *)
Lemma for_range_completes {S : Type} (I : nat -> S -> Prop)
    (body : nat -> S -> outcome S) :
  forall n lo s,
    I lo s ->
    (forall i t, (lo <= i < lo + n)%nat -> I i t ->
                 exists t', body i t = Done t' /\ I (Datatypes.S i) t') ->
    exists s', for_range lo n body s = Done s' /\ I (lo + n)%nat s'.
Proof.
  induction n as [|n IH]; intros lo s H0 Hstep; simpl.
  - exists s. now rewrite Nat.add_0_r.
  - destruct (Hstep lo s) as (t & Hb & Ht); [lia | exact H0 |].
    rewrite Hb. simpl.
    replace (lo + Datatypes.S n)%nat with (Datatypes.S lo + n)%nat by lia.
    apply IH; [exact Ht |]. intros i u Hi. apply Hstep. lia.
Qed.

(** A counted loop never runs out of fuel when its body does not. *)
Lemma for_range_fuel {S : Type} (body : nat -> S -> outcome S) :
  (forall i s, body i s <> OutOfFuel) ->
  forall n lo s, for_range lo n body s <> OutOfFuel.
Proof.
  intros Hb. induction n as [|n IH]; intros lo s; simpl; [discriminate|].
  destruct (body lo s) as [t| |] eqn:E; simpl;
    [apply IH | discriminate | exact (fun _ => Hb lo s E)].
Qed.

(** The invariant rule of a counted loop with [break] that completes: [I]
    holds between passes, [Q] at the exit, by [break] or at the end. *)
Lemma for_range_break_invariant {S : Type} (I : nat -> S -> Prop) (Q : S -> Prop)
    (body : nat -> S -> outcome (bool * S)) :
  forall n lo s s',
    I lo s ->
    (forall i t t', I i t -> body i t = Done (false, t') -> I (Datatypes.S i) t') ->
    (forall i t t', I i t -> body i t = Done (true, t') -> Q t') ->
    (forall t, I (lo + n)%nat t -> Q t) ->
    for_range_break lo n body s = Done s' ->
    Q s'.
Proof.
  induction n as [|n IH]; intros lo s s' H0 Hgo Hbreak Hend Hrun; simpl in Hrun.
  - injection Hrun as <-. apply Hend. now rewrite Nat.add_0_r.
  - apply bind_Done in Hrun. destruct Hrun as ([b t] & Hb & Hrun). simpl in Hrun.
    destruct b.
    + injection Hrun as <-. exact (Hbreak lo s t H0 Hb).
    + apply (IH (Datatypes.S lo) t s'); try assumption.
      * exact (Hgo lo s t H0 Hb).
      * intros u Hu. apply Hend.
        now replace (lo + Datatypes.S n)%nat with (Datatypes.S lo + n)%nat by lia.
Qed.

(** ** The right-hand side [f] *)

Section RightHandSide.

Variable sim : Simulation.

Let ns : nat := number_species (model sim).
Let nr : nat := number_reactions (model sim).
Let a (r : nat) (x : list float) : float :=
  ODEEvaluate (propensity_function sim) (Z.of_nat r) x.

Lemma signed_propensity_sum_S (x : list float) (s n : nat) :
  signed_propensity_sum sim x s (Datatypes.S n)
  = add_signed sim x n s (signed_propensity_sum sim x s n).
Proof.
  unfold signed_propensity_sum. rewrite seq_S, fold_left_app. reflexivity.
Qed.

(** *** The first loop: copy the concentrations, zero the derivatives *)

Lemma f_populate_loop (Y dydt conc : list float) (st : rhs_state) :
  length conc = ns ->
  for_range 0 ns f_populate
    {| rhs_Y := Y; rhs_dydt := dydt; rhs_concentrations := conc |} = Done st ->
  rhs_Y st = Y /\
  rhs_concentrations st = take ns Y /\
  (ns <= length Y)%nat /\
  (ns <= length dydt)%nat /\
  length (rhs_dydt st) = length dydt /\
  forall j, rhs_dydt st !! j
            = if decide (j < ns)%nat then Some 0%float else dydt !! j.
Proof.
  intros Hconc Hrun.
  pose (I := fun (i : nat) (u : rhs_state) =>
    rhs_Y u = Y /\ length (rhs_concentrations u) = ns /\
    (i <= length Y)%nat /\ (i <= length dydt)%nat /\
    length (rhs_dydt u) = length dydt /\
    (forall j, (j < i)%nat -> rhs_concentrations u !! j = Y !! j) /\
    (forall j, rhs_dydt u !! j
               = if decide (j < i)%nat then Some 0%float else dydt !! j)).
  assert (HI : I (0 + ns)%nat st).
  { refine (for_range_invariant I f_populate ns 0 _ st _ _ Hrun).
    - unfold I; simpl. split_and!; try reflexivity; try lia; try assumption.
    - clear Hrun. intros i u u' Hi (HY & Hc & HlY & Hld & Hl & Hcj & Hdj) Hb.
      unfold f_populate in Hb. done_inv Hb. injection Hb as <-. unfold I. simpl.
      apply load_Done in Ha. apply store_Done in Ha0, Ha1.
      destruct Ha0 as [Hi0 ->]. destruct Ha1 as [Hi1 ->].
      rewrite HY in Ha. apply lookup_lt_Some in Ha as HiY.
      rewrite !length_insert. split_and!; try lia; try assumption.
      + intros j Hj. destruct (decide (i = j)) as [<-|Hne].
        * rewrite list_lookup_insert_eq by lia. now rewrite Ha.
        * rewrite list_lookup_insert_ne by exact Hne. apply Hcj. lia.
      + intros j. destruct (decide (i = j)) as [<-|Hne].
        * rewrite list_lookup_insert_eq by lia.
          destruct (decide (i < Datatypes.S i)%nat); [reflexivity | lia].
        * rewrite list_lookup_insert_ne by exact Hne. rewrite Hdj.
          destruct (decide (j < i)%nat), (decide (j < Datatypes.S i)%nat);
            try reflexivity; lia. }
  simpl in HI. destruct HI as (HY & Hc & HlY & Hld & Hl & Hcj & Hdj).
  split_and!; try assumption.
  apply list_eq. intros j. destruct (decide (j < ns)%nat) as [Hj|Hj].
  - rewrite lookup_take_lt by exact Hj. apply Hcj, Hj.
  - rewrite lookup_take_ge by lia. apply lookup_ge_None_2. lia.
Qed.

(** *** The inner loop of a reaction: the species *)

Lemma f_species_Done (x : list float) (r s : nat) (d d' : list float) :
  f_species sim r (a r x) s d = Done d' ->
  (exists rxn c, reactions (model sim) !! r = Some rxn /\
                 species_change rxn !! s = Some c) /\
  length d' = length d /\
  forall j, d' !! j = if decide (j = s) then add_signed sim x r s <$> d !! j
                      else d !! j.
Proof.
  unfold f_species. intros H. done_inv H.
  apply load_Done in Ha, Ha0.
  assert (Hnu : nu sim r s = a1).
  { unfold nu. rewrite Ha, Ha0. reflexivity. }
  split; [eauto|].
  destruct (decide (a1 = 0)) as [Hz|Hz].
  - injection H as <-. split; [reflexivity|]. intros j.
    destruct (decide (j = s)) as [->|]; [|reflexivity].
    unfold add_signed. rewrite Hnu.
    destruct (decide (a1 = 0)); [|contradiction].
    now destruct (d !! s).
  - done_inv H. apply load_Done in Ha1. apply store_Done in H.
    destruct H as [Hs ->]. rewrite length_insert. split; [reflexivity|].
    intros j. destruct (decide (j = s)) as [->|Hne].
    + rewrite list_lookup_insert_eq by exact Hs. rewrite Ha1. simpl.
      unfold add_signed, sign_of_change. rewrite Hnu.
      destruct (decide (a1 = 0)); [contradiction | reflexivity].
    + rewrite list_lookup_insert_ne by congruence. reflexivity.
Qed.

Lemma f_species_loop (x : list float) (r : nat) (d d' : list float) :
  for_range 0 ns (f_species sim r (a r x)) d = Done d' ->
  length d' = length d /\
  (forall s, (s < ns)%nat -> exists rxn c,
      reactions (model sim) !! r = Some rxn /\ species_change rxn !! s = Some c) /\
  forall j, d' !! j = if decide (j < ns)%nat then add_signed sim x r j <$> d !! j
                      else d !! j.
Proof.
  intros Hrun.
  pose (I := fun (i : nat) (u : list float) =>
    length u = length d /\
    (forall s, (s < i)%nat -> exists rxn c,
        reactions (model sim) !! r = Some rxn /\
        species_change rxn !! s = Some c) /\
    (forall j, u !! j = if decide (j < i)%nat then add_signed sim x r j <$> d !! j
                        else d !! j)).
  refine (for_range_invariant I _ ns 0 d d' _ _ Hrun).
  - unfold I. split_and!; [reflexivity | intros; lia |]. intros j.
    destruct (decide (j < 0)%nat); [lia | reflexivity].
  - clear Hrun. intros i u u' Hi (Hl & Hsz & Hj) Hb.
    apply f_species_Done in Hb. destruct Hb as (Hex & Hl' & Hj').
    split_and!; [lia | |].
    + intros s Hs. destruct (decide (s = i)) as [->|]; [exact Hex|].
      apply Hsz. lia.
    + intros j. rewrite Hj'. destruct (decide (j = i)) as [->|Hne].
      * rewrite Hj. destruct (decide (i < i)%nat); [lia|].
        destruct (decide (i < Datatypes.S i)%nat); [reflexivity | lia].
      * rewrite Hj. destruct (decide (j < i)%nat), (decide (j < Datatypes.S i)%nat);
          try reflexivity; lia.
Qed.

(** *** The loop over the reactions *)

Lemma f_reaction_Done (r : nat) (st st' : rhs_state) :
  f_reaction sim r st = Done st' ->
  let x := rhs_concentrations st in
  rhs_concentrations st' = x /\
  (exists y, rhs_Y st !! (r + ns)%nat = Some y /\
             (ns + (r + ns) < length (rhs_Y st))%nat /\
             rhs_Y st' = <[(ns + (r + ns))%nat := (y + a r x)%float]> (rhs_Y st)) /\
  length (rhs_dydt st') = length (rhs_dydt st) /\
  forall j, rhs_dydt st' !! j
            = if decide (j < ns)%nat then add_signed sim x r j <$> rhs_dydt st !! j
              else rhs_dydt st !! j.
Proof.
  unfold f_reaction. intros H. done_inv H. injection H as <-. simpl.
  apply load_Done in Ha. apply store_Done in Ha0. destruct Ha0 as [Hi ->].
  apply f_species_loop in Ha1. destruct Ha1 as (Hl & _ & Hj).
  split_and!; try assumption; [reflexivity|]. exists a0. auto.
Qed.

Lemma f_reaction_loop (st st' : rhs_state) :
  (ns <= length (rhs_dydt st))%nat ->
  (forall j, (j < ns)%nat -> rhs_dydt st !! j = Some 0%float) ->
  for_range 0 nr (f_reaction sim) st = Done st' ->
  let x := rhs_concentrations st in
  length (rhs_Y st') = length (rhs_Y st) /\
  (nr = 0%nat \/ (ns + ns + nr <= length (rhs_Y st))%nat) /\
  length (rhs_dydt st') = length (rhs_dydt st) /\
  (forall j, (ns <= j)%nat -> rhs_dydt st' !! j = rhs_dydt st !! j) /\
  forall s, (s < ns)%nat ->
    rhs_dydt st' !! s = Some (signed_propensity_sum sim x s nr).
Proof.
  intros Hlen Hzero Hrun x.
  pose (I := fun (i : nat) (u : rhs_state) =>
    rhs_concentrations u = x /\
    length (rhs_Y u) = length (rhs_Y st) /\
    (i = 0%nat \/ (ns + ns + i <= length (rhs_Y st))%nat) /\
    length (rhs_dydt u) = length (rhs_dydt st) /\
    (forall j, (ns <= j)%nat -> rhs_dydt u !! j = rhs_dydt st !! j) /\
    (forall s, (s < ns)%nat ->
       rhs_dydt u !! s = Some (signed_propensity_sum sim x s i))).
  assert (HI : I (0 + nr)%nat st').
  { refine (for_range_invariant I _ nr 0 st st' _ _ Hrun).
    - unfold I. split_and!; auto.
    - clear Hrun. intros i u u' Hi (Hx & HlY & Hb & Hl & Hhi & Hlo) Hstep.
      apply f_reaction_Done in Hstep. simpl in Hstep. rewrite Hx in Hstep.
      destruct Hstep as (Hx' & (y & Hy & HiY & HY') & Hl' & Hj).
      unfold I. split_and!.
      + exact Hx'.
      + rewrite HY', length_insert. exact HlY.
      + right. lia.
      + lia.
      + intros j Hj'. rewrite Hj. destruct (decide (j < ns)%nat); [lia|].
        apply Hhi, Hj'.
      + intros s Hs. rewrite Hj. destruct (decide (s < ns)%nat); [|lia].
        rewrite (Hlo s Hs). simpl. now rewrite signed_propensity_sum_S. }
  simpl in HI. destruct HI as (_ & HlY & Hb & Hl & Hhi & Hlo).
  split_and!; assumption.
Qed.

(** What the loop over the reactions does to the state [Y] when there is a
    species: it leaves the cells below [2 * ns] alone, and for each reaction
    [r] it leaves in the cell [2 * ns + r] the cell [ns + r] plus the
    propensity. *)
Lemma f_reaction_loop_state (st st' : rhs_state) :
  (0 < ns)%nat ->
  for_range 0 nr (f_reaction sim) st = Done st' ->
  (forall j, (j < ns + ns)%nat -> rhs_Y st' !! j = rhs_Y st !! j) /\
  forall r, (r < nr)%nat ->
    exists y, rhs_Y st' !! (ns + r)%nat = Some y /\
              rhs_Y st' !! (ns + ns + r)%nat
              = Some (y + a r (rhs_concentrations st))%float.
Proof.
  intros Hns Hrun.
  pose (I := fun (i : nat) (u : rhs_state) =>
    rhs_concentrations u = rhs_concentrations st /\
    (forall j, (j < ns + ns)%nat -> rhs_Y u !! j = rhs_Y st !! j) /\
    (forall r, (r < i)%nat ->
       exists y, rhs_Y u !! (ns + r)%nat = Some y /\
                 rhs_Y u !! (ns + ns + r)%nat
                 = Some (y + a r (rhs_concentrations st))%float)).
  assert (HI : I (0 + nr)%nat st').
  { refine (for_range_invariant I _ nr 0 st st' _ _ Hrun).
    - unfold I. split_and!; [reflexivity | reflexivity | intros; lia].
    - clear Hrun. intros i u u' Hi (Hx & Hlow & Hdone) Hstep.
      apply f_reaction_Done in Hstep. simpl in Hstep. rewrite Hx in Hstep.
      destruct Hstep as (Hx' & (y & Hy & HiY & HY') & _).
      unfold I. split_and!.
      + exact Hx'.
      + intros j Hj. rewrite HY', list_lookup_insert_ne by lia. apply Hlow, Hj.
      + intros r Hr. destruct (decide (r = i)) as [->|Hne].
        * exists y. rewrite HY'. split.
          -- rewrite list_lookup_insert_ne by lia.
             now replace (ns + i)%nat with (i + ns)%nat by lia.
          -- replace (ns + ns + i)%nat with (ns + (i + ns))%nat by lia.
             apply list_lookup_insert_eq. exact HiY.
        * destruct (Hdone r) as (y' & Hy1 & Hy2); [lia|].
          exists y'. rewrite HY'.
          rewrite !list_lookup_insert_ne by lia. auto. }
  simpl in HI. destruct HI as (_ & Hlow & Hdone). split; assumption.
Qed.

(** *** The whole function *)

Lemma f_Done (t : float) (Y dydt Y' dydt' : list float) (z : Z) :
  f t Y dydt {| my_sim := sim |} = Done (Y', dydt', z) ->
  z = 0 /\
  (ns <= length Y)%nat /\ (ns <= length dydt)%nat /\
  (nr = 0%nat \/ (ns + ns + nr <= length Y)%nat) /\
  length Y' = length Y /\ length dydt' = length dydt /\
  (forall j, (ns <= j)%nat -> dydt' !! j = dydt !! j) /\
  forall s, (s < ns)%nat ->
    dydt' !! s = Some (signed_propensity_sum sim (take ns Y) s nr).
Proof.
  unfold f. simpl. intros H. done_inv H. injection H as <- <- <-.
  apply f_populate_loop in Ha; [|apply length_replicate].
  destruct Ha as (HY & Hc & HlY & Hld & Hl & Hj).
  apply f_reaction_loop in Ha0.
  - simpl in Ha0. rewrite Hc, HY in Ha0.
    destruct Ha0 as (HlY' & Hb & Hl' & Hhi & Hlo).
    split_and!; try assumption; try lia.
    intros j Hj'. rewrite (Hhi j Hj'), Hj.
    destruct (decide (j < ns)%nat); [lia | reflexivity].
  - fold ns. lia.
  - intros j Hj'. rewrite Hj. destruct (decide (j < ns)%nat); [reflexivity | lia].
Qed.

Lemma f_Done_state (t : float) (Y dydt Y' dydt' : list float) (z : Z) :
  (0 < ns)%nat ->
  f t Y dydt {| my_sim := sim |} = Done (Y', dydt', z) ->
  (forall j, (j < ns + ns)%nat -> Y' !! j = Y !! j) /\
  forall r, (r < nr)%nat ->
    exists y, Y' !! (ns + r)%nat = Some y /\
              Y' !! (ns + ns + r)%nat = Some (y + a r (take ns Y))%float.
Proof.
  unfold f. simpl. intros Hns H. done_inv H. injection H as <- <- <-.
  apply f_populate_loop in Ha; [|apply length_replicate].
  destruct Ha as (HY & Hc & _).
  apply f_reaction_loop_state in Ha0; [|exact Hns].
  rewrite Hc, HY in Ha0. exact Ha0.
Qed.

End RightHandSide.

(** The right-hand side completes on arrays that have room for every cell it
    touches: [num_species] cells of [ydot], and of [y] the cells up to
    [2 * num_species + num_reactions] when there is a reaction. *)
Lemma f_completes (sim : Simulation) (t : float) (Y dydt : list float) :
  let ns := number_species (model sim) in
  let nr := number_reactions (model sim) in
  model_well_sized (model sim) ->
  (ns <= length Y)%nat -> (ns <= length dydt)%nat ->
  (nr = 0%nat \/ (ns + ns + nr <= length Y)%nat) ->
  exists Y' dydt', f t Y dydt {| my_sim := sim |} = Done (Y', dydt', 0).
Proof.
  intros ns nr (Hsp & Hrx & Hch) HY Hd Hroom. unfold f. simpl.
  destruct (for_range_completes
              (fun (_ : nat) (u : rhs_state) =>
                 rhs_Y u = Y /\ length (rhs_concentrations u) = ns /\
                 length (rhs_dydt u) = length dydt)
              f_populate ns 0
              {| rhs_Y := Y; rhs_dydt := dydt;
                 rhs_concentrations := replicate ns 0%float |})
    as (st1 & Hrun1 & HY1 & _ & Hd1).
  { simpl. split_and!; [reflexivity | apply length_replicate | reflexivity]. }
  { intros i u Hi (HYu & Hcu & Hdu). unfold f_populate. rewrite HYu.
    destruct (load_in_range "Y" Y i) as (y & -> & _); [lia|]. simpl.
    rewrite store_in_range by lia. simpl.
    rewrite store_in_range by lia. simpl.
    eexists. split; [reflexivity|]. simpl.
    rewrite !length_insert. auto. }
  fold ns. rewrite Hrun1. simpl.
  destruct (for_range_completes
              (fun (_ : nat) (u : rhs_state) =>
                 length (rhs_Y u) = length Y /\ length (rhs_dydt u) = length dydt)
              (f_reaction sim) nr 0 st1)
    as (st2 & Hrun2 & _).
  { split; [now rewrite HY1 | exact Hd1]. }
  { intros r u Hr (HYu & Hdu). unfold f_reaction. fold ns.
    destruct (load_in_range "Y" (rhs_Y u) (r + ns)) as (y & -> & _); [lia|]. simpl.
    rewrite store_in_range by lia. simpl.
    destruct (for_range_completes
                (fun (_ : nat) (d : list float) => length d = length dydt)
                (f_species sim r
                   (ODEEvaluate (propensity_function sim) (Z.of_nat r)
                      (rhs_concentrations u)))
                ns 0 (rhs_dydt u))
      as (d' & -> & Hd'); [exact Hdu | |].
    - intros s d Hs Hld. unfold f_species.
      destruct (load_in_range "reactions" (reactions (model sim)) r)
        as (rxn & -> & Hrxn); [fold nr in Hrx; lia|]. simpl.
      destruct (load_in_range "species_change" (species_change rxn) s)
        as (c & -> & _);
        [pose proof (Hch r rxn ltac:(fold nr; lia) Hrxn) as Hc; fold ns in Hc; lia|].
      simpl.
      destruct (decide (c = 0)); [eauto|].
      destruct (load_in_range "dydt" d s) as (dv & -> & _); [lia|]. simpl.
      rewrite store_in_range by lia.
      eexists. split; [reflexivity|]. now rewrite length_insert.
    - simpl. eexists. split; [reflexivity|]. simpl.
      rewrite length_insert. auto. }
  fold nr. rewrite Hrun2. simpl. eauto.
Qed.

(** The two values the branchless sign takes. *)
Lemma sign_of_change_values (c : Z) :
  sign_of_change c = if decide (c > 0) then 1%float else (-1)%float.
Proof. unfold sign_of_change. destruct (decide (c > 0)); reflexivity. Qed.

(** C7.  Every call of the right-hand side that returns leaves, as the
    derivative of each species [s], the sum, started from zero and taken in
    the order of the reactions, of the propensities of the reactions that
    change [s], each times the sign [(-1 + 2 * [nu > 0])] of the change and
    never its size; the propensities are evaluated at the concentrations
    copied from [Y], and what [ydot] held before the call plays no part.
    And the call does return on arrays that have room for the cells it
    touches. *)
Theorem rhs_species_derivative (sim : Simulation) (t : float) (Y dydt : list float) :
  (forall Y' dydt' z,
     f t Y dydt {| my_sim := sim |} = Done (Y', dydt', z) ->
     forall s, (s < number_species (model sim))%nat ->
       dydt' !! s
       = Some (signed_propensity_sum sim (take (number_species (model sim)) Y) s
                 (number_reactions (model sim)))) /\
  (model_well_sized (model sim) ->
   (number_species (model sim) <= length Y)%nat ->
   (number_species (model sim) <= length dydt)%nat ->
   (number_reactions (model sim) = 0%nat \/
    (number_species (model sim) + number_species (model sim)
     + number_reactions (model sim) <= length Y)%nat) ->
   exists Y' dydt', f t Y dydt {| my_sim := sim |} = Done (Y', dydt', 0)).
Proof.
  split.
  - intros Y' dydt' z Hrun. apply f_Done in Hrun. apply Hrun.
  - apply f_completes.
Qed.

Lemma conversion_model_well_sized : model_well_sized conversion_model.
Proof.
  split_and!; simpl; [lia | lia |].
  intros [|[|r]] rxn Hr Hrxn; simpl in *; try lia;
    injection Hrxn as <-; simpl; lia.
Qed.

(** The sums at the conversion model with A = 8 and B = 4, where the rates
    are 4 and 1: -4 for A, and for B 4 - 1 = 3, the size 2 of its second
    change unused. *)
Lemma signed_propensity_sum_conversion :
  signed_propensity_sum conversion_simulation [8; 4]%float 0 2 = (-4)%float /\
  signed_propensity_sum conversion_simulation [8; 4]%float 1 2 = 3%float.
Proof. split; reflexivity. Qed.

(** The theorem at the conversion model, on a state with room. *)
Lemma rhs_species_derivative_witness :
  exists Y' dydt',
    f 0%float [8; 4; -0.5; -0.25; 0; 0]%float [9; 9; 9; 9; 9; 9]%float
      {| my_sim := conversion_simulation |} = Done (Y', dydt', 0) /\
    forall s, (s < 2)%nat ->
      dydt' !! s
      = Some (signed_propensity_sum conversion_simulation
                (take 2 [8; 4; -0.5; -0.25; 0; 0]%float) s 2).
Proof.
  destruct (proj2 (rhs_species_derivative conversion_simulation 0%float
                     [8; 4; -0.5; -0.25; 0; 0]%float [9; 9; 9; 9; 9; 9]%float))
    as (Y' & dydt' & Hrun).
  - exact conversion_model_well_sized.
  - simpl. lia.
  - simpl. lia.
  - right. simpl. lia.
  - exists Y', dydt'. split; [exact Hrun|].
    exact (proj1 (rhs_species_derivative conversion_simulation 0%float
                    [8; 4; -0.5; -0.25; 0; 0]%float [9; 9; 9; 9; 9; 9]%float)
             Y' dydt' 0 Hrun).
Defined.

(** Whenever the right-hand side returns, the cells of [ydot] from
    [num_species] on, the derivatives of the offsets, hold what they held
    before the call. *)
Lemma f_leaves_offset_derivatives (sim : Simulation) (t : float)
    (Y dydt Y' dydt' : list float) (z : Z) :
  f t Y dydt {| my_sim := sim |} = Done (Y', dydt', z) ->
  forall j, (number_species (model sim) <= j)%nat -> dydt' !! j = dydt !! j.
Proof. intros H. apply f_Done in H. apply H. Qed.

(** Whenever the right-hand side returns on a model with a reaction, [Y] has
    more cells than the packed state. *)
Lemma f_needs_room (sim : Simulation) (t : float)
    (Y dydt Y' dydt' : list float) (z : Z) :
  (0 < number_species (model sim))%nat ->
  (0 < number_reactions (model sim))%nat ->
  f t Y dydt {| my_sim := sim |} = Done (Y', dydt', z) ->
  (number_species (model sim) + number_reactions (model sim) < length Y)%nat.
Proof. intros Hs Hr H. apply f_Done in H. lia. Qed.

(** The right-hand side at the conversion model, on a state with room: the
    cells 2 and 3 of [ydot] still hold the 9 they held before, and the cells
    4 and 5 of [Y] hold offset plus propensity. *)
Lemma f_at_conversion :
  f 0%float [8; 4; -0.5; -0.25; 0; 0]%float [9; 9; 9; 9; 9; 9]%float
    {| my_sim := conversion_simulation |}
  = Done ([8; 4; -0.5; -0.25; 3.5; 0.75]%float, [-4; 3; 9; 9; 9; 9]%float, 0).
Proof. reflexivity. Qed.

(** C2, what the code does.  In every call that returns, on a model with a
    species, the cells of [ydot] from [num_species] on, where the derivatives
    of the offsets belong, hold what they held before the call, and the
    state [Y] has been written: for each reaction [r] its cell
    [2 * num_species + r] holds the cell [num_species + r] plus the
    propensity of [r]. *)
Theorem rhs_writes_offsets_into_state (sim : Simulation) (t : float)
    (Y dydt Y' dydt' : list float) (z : Z) :
  (0 < number_species (model sim))%nat ->
  f t Y dydt {| my_sim := sim |} = Done (Y', dydt', z) ->
  (forall j, (number_species (model sim) <= j)%nat -> dydt' !! j = dydt !! j) /\
  forall r, (r < number_reactions (model sim))%nat ->
    exists y,
      Y' !! (number_species (model sim) + r)%nat = Some y /\
      Y' !! (number_species (model sim) + number_species (model sim) + r)%nat
      = Some (y + ODEEvaluate (propensity_function sim) (Z.of_nat r)
                    (take (number_species (model sim)) Y))%float.
Proof.
  intros Hns H. split.
  - exact (f_leaves_offset_derivatives sim t Y dydt Y' dydt' z H).
  - exact (proj2 (f_Done_state sim t Y dydt Y' dydt' z Hns H)).
Qed.

(** The theorem at the conversion model. *)
Lemma rhs_writes_offsets_into_state_witness :
  (forall j, (2 <= j)%nat ->
     [-4; 3; 9; 9; 9; 9]%float !! j = [9; 9; 9; 9; 9; 9]%float !! j) /\
  forall r, (r < 2)%nat ->
    exists y,
      [8; 4; -0.5; -0.25; 3.5; 0.75]%float !! (2 + r)%nat = Some y /\
      [8; 4; -0.5; -0.25; 3.5; 0.75]%float !! (2 + 2 + r)%nat
      = Some (y + ODEEvaluate conversion_propensity (Z.of_nat r)
                    (take 2 [8; 4; -0.5; -0.25; 0; 0]%float))%float.
Proof.
  apply (rhs_writes_offsets_into_state conversion_simulation 0%float
           [8; 4; -0.5; -0.25; 0; 0]%float [9; 9; 9; 9; 9; 9]%float
           [8; 4; -0.5; -0.25; 3.5; 0.75]%float [-4; 3; 9; 9; 9; 9]%float 0).
  - simpl. lia.
  - exact f_at_conversion.
Defined.

(** ** The integration vector *)

(** The vector of a trajectory is allocated with [num_species] cells, so the
    first offset, written at the index [num_species], is outside it. *)
Lemma init_y0_overflows (log_uniform : mt19937_64 -> float * mt19937_64)
    (sim : Simulation) (r : mt19937_64) :
  (number_species (model sim) <= length (species (model sim)))%nat ->
  (0 < number_reactions (model sim))%nat ->
  init_y0 log_uniform sim r
  = Fault (OutOfBounds "y0" (Z.of_nat (number_species (model sim)))
             (number_species (model sim))).
Proof.
  intros Hsp Hnr. unfold init_y0.
  set (ns := number_species (model sim)) in *.
  destruct (for_range_completes
              (fun (_ : nat) (y : N_Vector) => length y = ns)
              (init_concentration sim) ns 0 (N_VNew_Serial ns))
    as (y & -> & Hy).
  - apply length_replicate.
  - intros i u Hi Hu. unfold init_concentration.
    destruct (load_in_range "species" (species (model sim)) i)
      as (sp & -> & _); [lia|]. simpl.
    rewrite store_in_range by lia.
    eexists. split; [reflexivity|]. now rewrite length_insert.
  - simpl. destruct (number_reactions (model sim)) as [|n]; [lia|]. simpl.
    unfold init_rxn_offset, store. simpl.
    destruct (decide (ns < length y)%nat); [lia|]. simpl. now rewrite Hy.
Qed.

(** No step of the right-hand side takes fuel. *)
Lemma bind_fuel {A B : Type} (m : outcome A) (k : A -> outcome B) :
  m <> OutOfFuel -> (forall x, k x <> OutOfFuel) -> bind m k <> OutOfFuel.
Proof. destruct m; simpl; auto; discriminate. Qed.

Lemma load_fuel {A : Type} (name : string) (l : list A) (i : nat) :
  load name l i <> OutOfFuel.
Proof. unfold load. destruct (l !! i); discriminate. Qed.

Lemma store_fuel {A : Type} (name : string) (l : list A) (i : nat) (x : A) :
  store name l i x <> OutOfFuel.
Proof. unfold store. destruct (decide (i < length l)%nat); discriminate. Qed.

Lemma f_fuel (t : float) (Y dydt : list float) (user_data : UserData) :
  f t Y dydt user_data <> OutOfFuel.
Proof.
  unfold f. apply bind_fuel.
  - apply for_range_fuel. intros i s. unfold f_populate.
    repeat (apply bind_fuel; [apply load_fuel || apply store_fuel | intros]).
    discriminate.
  - intros st. apply bind_fuel; [|discriminate].
    apply for_range_fuel. intros r u. unfold f_reaction.
    apply bind_fuel; [apply load_fuel | intros y].
    apply bind_fuel; [apply store_fuel | intros Y1].
    apply bind_fuel; [|discriminate].
    apply for_range_fuel. intros s d. unfold f_species.
    apply bind_fuel; [apply load_fuel | intros rxn].
    apply bind_fuel; [apply load_fuel | intros c].
    destruct (decide (c = 0)); [discriminate|].
    apply bind_fuel; [apply load_fuel | intros; apply store_fuel].
Qed.

(** The solver on the conversion model: the write of the first offset is
    outside the vector, whatever the fuel. *)
Lemma solver_overflows_on_conversion (fuel : nat) :
  TauHybridCSolver euler (fixed_draw (-1)%float) example_tolerance
    example_tolerance fuel (Some conversion_simulation) 0.03125%float
    process_at_start
  = Fault (OutOfBounds "y0" 2 2).
Proof. reflexivity. Qed.

(** C3, what the code does.  On a model with a species and a reaction, the
    vector of a trajectory is allocated with [num_species] cells, and
    initialising the first offset writes its cell [num_species], outside it;
    and the right-hand side, called on a state of the packed length
    [num_species + num_reactions], addresses a cell outside that state: the
    call faults. *)
Theorem integration_vector_too_short
    (log_uniform : mt19937_64 -> float * mt19937_64) (sim : Simulation)
    (r : mt19937_64) (t : float) (Y dydt : list float) :
  (0 < number_species (model sim))%nat ->
  (number_species (model sim) <= length (species (model sim)))%nat ->
  (0 < number_reactions (model sim))%nat ->
  length Y = (number_species (model sim) + number_reactions (model sim))%nat ->
  length (N_VNew_Serial (number_species (model sim)))
  = number_species (model sim) /\
  init_y0 log_uniform sim r
  = Fault (OutOfBounds "y0" (Z.of_nat (number_species (model sim)))
             (number_species (model sim))) /\
  exists e, f t Y dydt {| my_sim := sim |} = Fault e.
Proof.
  intros Hns Hsp Hnr HY. split_and!.
  - apply length_replicate.
  - apply init_y0_overflows; assumption.
  - destruct (f t Y dydt {| my_sim := sim |}) as [[[Y' dydt'] z]|e|] eqn:E.
    + apply f_needs_room in E; [lia | assumption..].
    + eauto.
    + exfalso. exact (f_fuel _ _ _ _ E).
Qed.

(** The theorem at the conversion model (two species, two reactions): the
    vector has two cells and the first offset goes to the index 2; the
    right-hand side on a state of length four faults. *)
Lemma integration_vector_too_short_witness :
  length (N_VNew_Serial 2) = 2%nat /\
  init_y0 (fixed_draw (-1)%float) conversion_simulation small_engine
  = Fault (OutOfBounds "y0" 2 2) /\
  exists e,
    f 0%float [8; 4; -0.5; -0.25]%float [9; 9; 9; 9]%float
      {| my_sim := conversion_simulation |} = Fault e.
Proof.
  apply (integration_vector_too_short (fixed_draw (-1)%float)
           conversion_simulation small_engine 0%float
           [8; 4; -0.5; -0.25]%float [9; 9; 9; 9]%float);
    simpl; lia.
Defined.

(** The fault of the right-hand side there is the write of the cell 4. *)
Lemma f_overflows_on_conversion :
  f 0%float [8; 4; -0.5; -0.25]%float [9; 9; 9; 9]%float
    {| my_sim := conversion_simulation |}
  = Fault (OutOfBounds "Y" 4 4).
Proof. reflexivity. Qed.

(** ** A null simulation *)

(** C10.  Called with a null pointer, the solver returns at once, whatever
    the fuel and the integrator: there is no simulation to write to, and of
    the process only the disposition of SIGINT has changed. *)
Theorem null_simulation_returns (sundials : Sundials)
    (log_uniform : mt19937_64 -> float * mt19937_64)
    (reltol abstol : float) (fuel : nat) (tau_tol : float) (p : Process) :
  TauHybridCSolver sundials log_uniform reltol abstol fuel None tau_tol p
  = Done (None, {| interrupted := interrupted p; sigint := signalHandler |}).
Proof. reflexivity. Qed.

(** ** Reconciliation *)

Section Reconciliation.

Variable sundials : Sundials.
Variable log_uniform : mt19937_64 -> float * mt19937_64.

(** The guard of the reconciliation loop is [false && ...]: with any fuel at
    all, the loop returns the state it was given. *)
Lemma reconcile_skips (fuel : nat) (st : trajectory_state sundials) :
  reconcile sundials log_uniform (Datatypes.S fuel) st = Done st.
Proof. reflexivity. Qed.

(** The firing loop ends only on an offset that fails the test
    [rxn_state >= 0]; a projected population below zero does not end it. *)
Lemma fire_while_exit (rxn_i : nat) :
  forall fuel rxn_state st r,
    fire_while sundials log_uniform fuel rxn_i rxn_state st = Done r ->
    (0 <=? fst r)%float = false.
Proof.
  induction fuel as [|fuel IH]; intros rxn_state st r H; simpl in H;
    [discriminate|].
  destruct (0 <=? rxn_state)%float eqn:E.
  - done_inv H. exact (IH _ _ _ H).
  - injection H as <-. exact E.
Qed.

Lemma clear_population_change_loop (n : nat) (st st' : trajectory_state sundials) :
  for_range 0 n (clear_population_change sundials) st = Done st' ->
  firing_frame sundials st' = firing_frame sundials st.
Proof.
  intros H.
  refine (for_range_invariant
            (fun _ u => firing_frame sundials u = firing_frame sundials st)
            _ n 0 st st' _ _ H).
  - reflexivity.
  - intros i u u' _ Hu Hb. unfold clear_population_change in Hb. done_inv Hb.
    injection Hb as <-. exact Hu.
Qed.

Lemma fire_species_loop (rxn_i n : nat) (st st' : trajectory_state sundials) :
  for_range_break 0 n (fire_species sundials rxn_i) st = Done st' ->
  firing_frame sundials st' = firing_frame sundials st.
Proof.
  intros H.
  refine (for_range_break_invariant
            (fun _ u => firing_frame sundials u = firing_frame sundials st)
            (fun u => firing_frame sundials u = firing_frame sundials st)
            _ n 0 st st' _ _ _ _ H).
  - reflexivity.
  - intros i u u' Hu Hb. unfold fire_species in Hb. done_inv Hb.
    injection Hb as _ <-. exact Hu.
  - intros i u u' Hu Hb. unfold fire_species in Hb. done_inv Hb.
    injection Hb as _ <-. exact Hu.
  - auto.
Qed.

Lemma fire_while_frame (rxn_i : nat) :
  forall fuel rxn_state st r,
    fire_while sundials log_uniform fuel rxn_i rxn_state st = Done r ->
    firing_frame sundials (snd r) = firing_frame sundials st.
Proof.
  induction fuel as [|fuel IH]; intros rxn_state st r H; simpl in H;
    [discriminate|].
  destruct (0 <=? rxn_state)%float.
  - done_inv H. apply IH in H. rewrite H.
    apply fire_species_loop in Ha. exact Ha.
  - injection H as <-. reflexivity.
Qed.

Lemma commit_population_change_loop (n : nat) (st st' : trajectory_state sundials) :
  for_range 0 n (commit_population_change sundials) st = Done st' ->
  commit_frame sundials st' = commit_frame sundials st /\
  forall s, (s < n)%nat ->
    exists c p, current_state (solver st) !! s = Some c /\
                population_changes st !! s = Some p /\
                current_state (solver st') !! s = Some (c + int_to_double p)%float.
Proof.
  intros H.
  pose (I := fun (i : nat) (u : trajectory_state sundials) =>
    commit_frame sundials u = commit_frame sundials st /\
    (forall s, (i <= s)%nat ->
       current_state (solver u) !! s = current_state (solver st) !! s) /\
    (forall s, (s < i)%nat ->
       exists c p, current_state (solver st) !! s = Some c /\
                   population_changes st !! s = Some p /\
                   current_state (solver u) !! s = Some (c + int_to_double p)%float)).
  assert (HI : I (0 + n)%nat st').
  { refine (for_range_invariant I _ n 0 st st' _ _ H).
    - unfold I. split_and!; [reflexivity | reflexivity | intros; lia].
    - clear H. intros i u u' _ (Hf & Hhi & Hlo) Hb.
      unfold commit_population_change in Hb. done_inv Hb. injection Hb as <-.
      apply load_Done in Ha, Ha0. apply store_Done in Ha1.
      destruct Ha1 as [Hi ->].
      assert (Hpc : population_changes u = population_changes st)
        by exact (f_equal (fun '(_, _, _, _, x) => x) Hf).
      unfold I. simpl. split_and!.
      + exact Hf.
      + intros s Hs. rewrite list_lookup_insert_ne by lia. apply Hhi. lia.
      + intros s Hs. destruct (decide (s = i)) as [->|Hne].
        * exists a, a0. rewrite <- Hhi by lia. rewrite <- Hpc.
          split_and!; [exact Ha | exact Ha0 |].
          apply list_lookup_insert_eq. exact Hi.
        * rewrite list_lookup_insert_ne by congruence. apply Hlo. lia. }
  destruct HI as (Hf & _ & Hlo). split; assumption.
Qed.

(** The body of the reconciliation loop, when it completes, has ended its
    firing loop on an offset [rho] that fails [rho >= 0], and then either
    committed, on [rho < 0], or taken the other branch. *)
Lemma reconcile_reaction_Done (fuel rxn_i : nat) (st st' : trajectory_state sundials) :
  reconcile_reaction sundials log_uniform fuel rxn_i st = Done st' ->
  exists rho,
    (0 <=? rho)%float = false /\
    (((rho <? 0)%float = true /\
      tau_step st' = tau_step st /\
      next_time st' = next_time st /\
      y0 st' = <[(num_species_of st + rxn_i)%nat := rho]> (y0 st) /\
      forall s, (s < num_species_of st)%nat ->
        exists c p, current_state (solver st) !! s = Some c /\
                    population_changes st' !! s = Some p /\
                    current_state (solver st') !! s
                    = Some (c + int_to_double p)%float)
     \/
     ((rho <? 0)%float = false /\
      tau_step st' = (tau_step st * 0.5)%float /\
      next_time st' = current_time (simulation_object (solver st)) /\
      y0 st' = y0 st /\
      current_state (solver st') = current_state (solver st))).
Proof.
  unfold reconcile_reaction. intros H. done_inv H.
  apply clear_population_change_loop in Ha0.
  pose proof (fire_while_exit _ _ _ _ _ Ha1) as Hexit.
  apply fire_while_frame in Ha1.
  destruct a1 as [rho st2]. simpl in *. rewrite Ha0 in Ha1. clear Ha0 a0.
  assert (Hsim : simulation_object (solver st2) = simulation_object (solver st))
    by exact (f_equal (fun '(x, _, _, _, _) => x) Ha1).
  assert (Hcs : current_state (solver st2) = current_state (solver st))
    by exact (f_equal (fun '(_, x, _, _, _) => x) Ha1).
  assert (Hy : y0 st2 = y0 st)
    by exact (f_equal (fun '(_, _, x, _, _) => x) Ha1).
  assert (Hts : tau_step st2 = tau_step st)
    by exact (f_equal (fun '(_, _, _, x, _) => x) Ha1).
  assert (Hnt : next_time st2 = next_time st)
    by exact (f_equal (fun '(_, _, _, _, x) => x) Ha1).
  exists rho. split; [exact Hexit|].
  destruct (rho <? 0)%float.
  - left. done_inv H. injection H as <-. simpl.
    apply commit_population_change_loop in Ha0. destruct Ha0 as [Hf Hcommit].
    apply store_Done in Ha2. destruct Ha2 as [_ ->].
    assert (Hy' : y0 a0 = y0 st2)
      by exact (f_equal (fun '(_, x, _, _, _) => x) Hf).
    assert (Hts' : tau_step a0 = tau_step st2)
      by exact (f_equal (fun '(_, _, x, _, _) => x) Hf).
    assert (Hnt' : next_time a0 = next_time st2)
      by exact (f_equal (fun '(_, _, _, x, _) => x) Hf).
    assert (Hpc' : population_changes a0 = population_changes st2)
      by exact (f_equal (fun '(_, _, _, _, x) => x) Hf).
    split_and!.
    + reflexivity.
    + congruence.
    + congruence.
    + rewrite Hy', Hy. reflexivity.
    + intros s Hs. destruct (Hcommit s Hs) as (c & p & Hc & Hp & Hc').
      exists c, p. rewrite Hpc', <- Hcs. auto.
  - right. injection H as <-. simpl. rewrite Hsim, Hts.
    split_and!; auto.
Qed.

Lemma emit_species_frame (traj spec_i : nat) (st st' : trajectory_state sundials) :
  emit_species sundials traj spec_i st = Done st' ->
  emission_frame sundials st' = emission_frame sundials st /\
  save_time st' = save_time st.
Proof.
  unfold emit_species. intros H. done_inv H. injection H as <-.
  unfold store_trajectoriesODE in Ha0. done_inv Ha0. injection Ha0 as <-.
  split; reflexivity.
Qed.

Lemma emit_species_loop_frame (traj n : nat) (st st' : trajectory_state sundials) :
  for_range 0 n (emit_species sundials traj) st = Done st' ->
  emission_frame sundials st' = emission_frame sundials st /\
  save_time st' = save_time st.
Proof.
  intros H.
  refine (for_range_invariant
            (fun _ u => emission_frame sundials u = emission_frame sundials st /\
                        save_time u = save_time st)
            _ n 0 st st' _ _ H).
  - split; reflexivity.
  - intros i u u' _ [Hf Hs] Hb. apply emit_species_frame in Hb.
    destruct Hb as [Hf' Hs']. split; congruence.
Qed.

Lemma emit_samples_frame (fuel traj : nat) (increment : float) :
  forall st st',
    emit_samples sundials fuel traj increment st = Done st' ->
    emission_frame sundials st' = emission_frame sundials st.
Proof.
  induction fuel as [|fuel IH]; intros st st' H; simpl in H; [discriminate|].
  destruct (int_to_double (save_time st) <=? next_time st)%float.
  - done_inv H. apply emit_species_loop_frame in Ha. destruct Ha as [Hf _].
    apply IH in H. rewrite H. exact Hf.
  - injection H as <-. reflexivity.
Qed.

Lemma emission_frame_inv (st st' : trajectory_state sundials) :
  emission_frame sundials st' = emission_frame sundials st ->
  set_trajectoriesODE (simulation_object (solver st')) []
  = set_trajectoriesODE (simulation_object (solver st)) [] /\
  current_state (solver st') = current_state (solver st) /\
  rng (solver st') = rng (solver st) /\
  y0 st' = y0 st /\
  cvode_mem st' = cvode_mem st /\
  next_time st' = next_time st /\
  tau_step st' = tau_step st /\
  population_changes st' = population_changes st.
Proof.
  unfold emission_frame. intros H. split_and!.
  - exact (f_equal (fun '(a, _, _, _, _, _, _, _, _, _) => a) H).
  - exact (f_equal (fun '(_, a, _, _, _, _, _, _, _, _) => a) H).
  - exact (f_equal (fun '(_, _, _, a, _, _, _, _, _, _) => a) H).
  - exact (f_equal (fun '(_, _, _, _, a, _, _, _, _, _) => a) H).
  - exact (f_equal (fun '(_, _, _, _, _, a, _, _, _, _) => a) H).
  - exact (f_equal (fun '(_, _, _, _, _, _, _, a, _, _) => a) H).
  - exact (f_equal (fun '(_, _, _, _, _, _, _, _, a, _) => a) H).
  - exact (f_equal (fun '(_, _, _, _, _, _, _, _, _, a) => a) H).
Qed.

(** C1, as the code has it.  A pass of the step loop that completes has
    advanced the integrator and reconciled nothing: the populations in
    [current_state], the engine, [tau_step] and [population_changes] are
    what they were before the pass, the vector, offsets included, is the one
    the integrator returned, and the simulation is at the time the
    integrator reached. *)
Theorem step_reconciles_nothing (fuel traj : nat) (increment : float)
    (st st' : trajectory_state sundials) :
  simulation_step sundials log_uniform fuel traj increment st = Done st' ->
  current_state (solver st') = current_state (solver st) /\
  rng (solver st') = rng (solver st) /\
  tau_step st' = tau_step st /\
  population_changes st' = population_changes st /\
  exists mem y tret fl,
    CVode sundials (cvode_mem st)
      (current_time (simulation_object (solver st)) + tau_step st)%float
      (y0 st) CV_NORMAL = Done (mem, y, tret, fl) /\
    y0 st' = y /\
    current_time (simulation_object (solver st')) = tret.
Proof.
  unfold simulation_step. intros H. done_inv H. simpl in Ha.
  destruct fuel as [|fuel]; [discriminate|].
  rewrite reconcile_skips in Ha0. injection Ha0 as <-.
  apply emit_samples_frame, emission_frame_inv in H. simpl in H.
  destruct H as (Hsim & Hc & Hr & Hy & _ & _ & Ht & Hpc).
  split_and!; try assumption.
  destruct a as [[[mem y] tret] fl]. exists mem, y, tret, fl.
  split_and!; [exact Ha | exact Hy |].
  apply (f_equal current_time) in Hsim. exact Hsim.
Qed.

End Reconciliation.

(** The theorem at the birth-death model, one step from time 0 with the
    offset of the birth at 0.5: the population stays 3 and the offset 0.5. *)
Lemma step_reconciles_nothing_witness :
  exists st',
    simulation_step stationary (fixed_draw (-1)%float) 5 0 1%float
      (birth_death_state 3 0.5 (-0.25)) = Done st' /\
    current_state (solver st') = [3%float] /\
    y0 st' = [3; 0.5; -0.25]%float /\
    tau_step st' = 1%float.
Proof.
  destruct (simulation_step stationary (fixed_draw (-1)%float) 5 0 1%float
              (birth_death_state 3 0.5 (-0.25))) as [st'| |] eqn:E;
    [|discriminate E..].
  exists st'. split; [reflexivity|].
  pose proof (step_reconciles_nothing stationary (fixed_draw (-1)%float)
                5 0 1%float (birth_death_state 3 0.5 (-0.25)) st' E)
    as (Hc & _ & Ht & _ & (mem & y & tret & fl & Hcv & Hy & _)).
  injection Hcv as _ <- _ _.
  split_and!; [exact Hc | exact Hy | exact Ht].
Defined.

(** C1, as the specification states it, fails at the birth-death model: after an
    advance that leaves the offset of the birth at 0.5, the reconciliation of
    the specification fires the birth once, commits the population 4 and
    writes the offset -0.5, while the loop of the driver returns the state
    with the population 3 and the offset 0.5. *)
Lemma reconciliation_is_skipped :
  (0 <=? 0.5)%float = true /\
  spec_reconcile_reaction (fixed_draw (-1)%float) 5 [1] [3%float] 0.5%float
    small_engine
  = Done (Some ([4%float], (-0.5)%float,
                {| mt_words := []; mt_position := 1 |})) /\
  reconcile stationary (fixed_draw (-1)%float) 5 (birth_death_state 3 0.5 (-0.25))
  = Done (birth_death_state 3 0.5 (-0.25)) /\
  current_state (solver (birth_death_state 3 0.5 (-0.25))) = [3%float] /\
  y0 (birth_death_state 3 0.5 (-0.25)) !! 1%nat = Some 0.5%float.
Proof. split_and!; reflexivity. Qed.

(** The body of the reconciliation loop at the birth-death model, for the
    death, with population 0 and the offset at 0.5.  The firing takes the
    projected population to -1, the [break] leaves the loop over the species
    only, the draw -1 takes the offset to -0.5, and the commit is applied. *)
Lemma death_at_zero_population :
  spec_reconcile_reaction (fixed_draw (-1)%float) 5 [-1] [0%float] 0.5%float
    small_engine = Done None /\
  bind (reconcile_reaction stationary (fixed_draw (-1)%float) 5 1
          (birth_death_state 0 (-0.25) 0.5))
       (fun st' => Done (tau_step st', next_time st', y0 st',
                         current_state (solver st'), population_changes st'))
  = Done (1%float, 1%float, [0; -0.25; -0.5]%float, [(-1)%float], [-1]).
Proof. split; reflexivity. Qed.

(** The same body on an offset that is not a number: the other branch. *)
Lemma death_at_unordered_offset :
  bind (reconcile_reaction stationary (fixed_draw (-1)%float) 5 1
          (birth_death_state 0 (-0.25) nan))
       (fun st' => Done (tau_step st', next_time st', y0 st',
                         current_state (solver st')))
  = Done (0.5%float, 0%float, [0; -0.25; nan]%float, [0%float]).
Proof. reflexivity. Qed.

(** ** What a pass of the step loop commits and records *)

(** One write of the output buffer changes the cell it names and no other. *)
Lemma store_trajectoriesODE_cell (sim sim' : Simulation) (traj : nat) (k : Z)
    (s : nat) (x : float) :
  store_trajectoriesODE sim traj k s x = Done sim' ->
  forall t k' s',
    output_cell sim' t k' s'
    = if decide (t = traj /\ k' = Z.to_nat k /\ s' = s) then Some x
      else output_cell sim t k' s'.
Proof.
  unfold store_trajectoriesODE. intros H.
  apply bind_Done in H. destruct H as (plane & Hplane & H).
  apply bind_Done in H. destruct H as (kn & Hkn & H).
  apply bind_Done in H. destruct H as (row & Hrow & H).
  apply bind_Done in H. destruct H as (row' & Hrow' & H).
  injection H as <-.
  apply load_Done in Hplane, Hrow. apply store_Done in Hrow'.
  destruct Hrow' as [Hs ->].
  unfold subscript in Hkn. destruct (decide (0 <= k)); [|discriminate].
  injection Hkn as <-.
  apply lookup_lt_Some in Hplane as Htraj. apply lookup_lt_Some in Hrow as Hk.
  intros t k' s'. unfold output_cell. simpl.
  destruct (decide (t = traj)) as [->|Ht].
  - rewrite list_lookup_insert_eq by exact Htraj. rewrite Hplane.
    destruct (decide (k' = Z.to_nat k)) as [->|Hk'].
    + rewrite list_lookup_insert_eq by exact Hk. rewrite Hrow.
      destruct (decide (s' = s)) as [->|Hs'].
      * rewrite list_lookup_insert_eq by exact Hs.
        rewrite decide_True by auto. reflexivity.
      * rewrite list_lookup_insert_ne by congruence.
        rewrite decide_False by tauto. reflexivity.
    + rewrite list_lookup_insert_ne by congruence.
      rewrite decide_False by tauto. reflexivity.
  - rewrite list_lookup_insert_ne by congruence.
    rewrite decide_False by tauto. reflexivity.
Qed.

Section Pass.

Variable sundials : Sundials.
Variable log_uniform : mt19937_64 -> float * mt19937_64.

Let cell (st : trajectory_state sundials) : nat -> nat -> nat -> option float :=
  output_cell (simulation_object (solver st)).

(** Between [st] and [st'], a cell of the output buffer either keeps its
    value or, in the trajectory [traj], takes the cell of its species in the
    vector [y]. *)
Let records_only (traj : nat) (y : N_Vector) (st st' : trajectory_state sundials)
  : Prop :=
  forall t k s, cell st' t k s = cell st t k s \/
                (t = traj /\ cell st' t k s = y !! s).

Lemma emit_species_cells (traj spec_i : nat) (st st' : trajectory_state sundials) :
  emit_species sundials traj spec_i st = Done st' ->
  forall t k s,
    cell st' t k s
    = if decide (t = traj /\ k = Z.to_nat (save_time st) /\ s = spec_i)
      then y0 st !! spec_i else cell st t k s.
Proof.
  unfold emit_species. intros H.
  apply bind_Done in H. destruct H as (y & Hy & H).
  apply bind_Done in H. destruct H as (sim & Hsim & H).
  injection H as <-. apply load_Done in Hy. intros t k s.
  unfold cell. simpl.
  rewrite (store_trajectoriesODE_cell _ _ _ _ _ _ Hsim t k s).
  destruct (decide (t = traj /\ k = Z.to_nat (save_time st) /\ s = spec_i));
    [symmetry; exact Hy | reflexivity].
Qed.

Lemma emit_species_loop_cells (traj n : nat) (st st' : trajectory_state sundials) :
  for_range 0 n (emit_species sundials traj) st = Done st' ->
  records_only traj (y0 st) st st' /\
  forall s, (s < n)%nat ->
    cell st' traj (Z.to_nat (save_time st)) s = y0 st !! s.
Proof.
  unfold records_only, cell. intros H.
  pose (I := fun (i : nat) (u : trajectory_state sundials) =>
    y0 u = y0 st /\ save_time u = save_time st /\
    records_only traj (y0 st) st u /\
    forall s, (s < i)%nat ->
      cell u traj (Z.to_nat (save_time st)) s = y0 st !! s).
  assert (HI : I (0 + n)%nat st').
  { refine (for_range_invariant I _ n 0 st st' _ _ H).
    - unfold I, records_only, cell.
      split_and!; [reflexivity | reflexivity | | intros; lia].
      intros t k s. left. reflexivity.
    - clear H. unfold I, records_only, cell.
      intros i u u' _ (Hy & Hk & Hn & Hp) Hb.
      pose proof (emit_species_cells _ _ _ _ Hb) as Hc. unfold cell in Hc.
      apply emit_species_frame in Hb. destruct Hb as [Hf Hk'].
      apply emission_frame_inv in Hf. destruct Hf as (_ & _ & _ & Hy' & _).
      rewrite Hy, Hk in Hc. split_and!.
      + congruence.
      + congruence.
      + intros t k s. rewrite Hc.
        destruct (decide (t = traj /\ k = Z.to_nat (save_time st) /\ s = i))
          as [(-> & -> & ->)|_].
        * right. split; reflexivity.
        * exact (Hn t k s).
      + intros s Hs. rewrite Hc.
        destruct (decide (traj = traj /\
                          Z.to_nat (save_time st) = Z.to_nat (save_time st) /\
                          s = i)) as [(_ & _ & ->)|Hne]; [reflexivity|].
        apply Hp. assert (s <> i) by tauto. lia. }
  destruct HI as (_ & _ & Hn & Hp). split; assumption.
Qed.

Lemma emit_samples_cells (traj : nat) (increment : float) :
  forall fuel (st st' : trajectory_state sundials),
    emit_samples sundials fuel traj increment st = Done st' ->
    records_only traj (y0 st) st st' /\
    ((int_to_double (save_time st) <=? next_time st)%float = true ->
     forall s, (s < num_species_of st)%nat ->
       cell st' traj (Z.to_nat (save_time st)) s = y0 st !! s).
Proof.
  unfold records_only, cell.
  induction fuel as [|fuel IH]; intros st st' H; simpl in H; [discriminate|].
  destruct (int_to_double (save_time st) <=? next_time st)%float.
  - apply bind_Done in H. destruct H as (st1 & Hloop & H).
    apply bind_Done in H. destruct H as (k & _ & H).
    pose proof (emit_species_loop_frame _ _ _ _ _ Hloop) as [Hf _].
    apply emission_frame_inv in Hf. destruct Hf as (_ & _ & _ & Hy & _).
    apply emit_species_loop_cells in Hloop. unfold records_only, cell in Hloop.
    destruct Hloop as [Hn1 Hp1].
    apply IH in H. destruct H as [Hn2 _]. simpl in Hn2. rewrite Hy in Hn2.
    split.
    + intros t j s. destruct (Hn2 t j s) as [E | [-> E]].
      * rewrite E. exact (Hn1 t j s).
      * right. split; [reflexivity | exact E].
    + intros _ s Hs.
      destruct (Hn2 traj (Z.to_nat (save_time st)) s) as [E | [_ E]].
      * rewrite E. exact (Hp1 s Hs).
      * exact E.
  - injection H as <-. split; [|discriminate].
    intros t k s. left. reflexivity.
Qed.



End Pass.





(** ** The output loop *)

Lemma set_save_time_same (sundials : Sundials) (st : trajectory_state sundials) :
  set_save_time st (save_time st) = st.
Proof. destruct st. reflexivity. Qed.

(** When adding the spacing to [save_time] and converting back to [int]
    gives [save_time] again, and the buffer already holds what the pass
    writes, the output loop exhausts any fuel. *)
Lemma emit_samples_spins (sundials : Sundials) (traj : nat) (increment : float)
    (st : trajectory_state sundials) :
  (int_to_double (save_time st) <=? next_time st)%float = true ->
  for_range 0 (num_species_of st) (emit_species sundials traj) st = Done st ->
  double_to_int (int_to_double (save_time st) + increment)%float
  = Done (save_time st) ->
  forall fuel, emit_samples sundials fuel traj increment st = OutOfFuel.
Proof.
  intros Hle Hemit Hconv. induction fuel as [|fuel IH]; [reflexivity|].
  simpl. rewrite Hle, Hemit. simpl. rewrite Hconv. simpl.
  rewrite set_save_time_same. exact IH.
Qed.

(** More generally: once the loop is entered at an index that the spacing
    does not move, it does not complete, whatever the fuel. *)
Lemma emit_samples_never_completes (sundials : Sundials) (traj : nat)
    (increment : float) :
  forall fuel (st st' : trajectory_state sundials),
    (int_to_double (save_time st) <=? next_time st)%float = true ->
    double_to_int (int_to_double (save_time st) + increment)%float
    = Done (save_time st) ->
    emit_samples sundials fuel traj increment st <> Done st'.
Proof.
  induction fuel as [|fuel IH]; intros st st' Hle Hconv H; simpl in H;
    [discriminate|].
  rewrite Hle in H. done_inv H.
  apply emit_species_loop_frame in Ha. destruct Ha as [Hf Hs].
  apply emission_frame_inv in Hf. destruct Hf as (_ & _ & _ & _ & _ & Hn & _).
  rewrite Hs, Hconv in Ha0. injection Ha0 as <-.
  apply (IH (set_save_time a (save_time st)) st'); simpl.
  - now rewrite Hn.
  - exact Hconv.
  - exact H.
Qed.

(** *** How an exhausted loop reaches the caller *)

Section Exhaustion.

Variable sundials : Sundials.
Variable log_uniform : mt19937_64 -> float * mt19937_64.
Variables reltol abstol : float.

Lemma simulation_step_exhausts (fuel traj : nat) (increment : float)
    (st : trajectory_state sundials)
    (r : cvode_memory sundials * N_Vector * float * Z) :
  CVode sundials (cvode_mem st)
    (current_time (simulation_object (solver st)) + tau_step st)%float
    (y0 st) CV_NORMAL = Done r ->
  emit_samples sundials (Datatypes.S fuel) traj increment
    {| solver := set_simulation (solver st)
                   (set_current_time (simulation_object (solver st)) (snd (fst r)));
       y0 := snd (fst (fst r)); cvode_mem := fst (fst (fst r));
       flag := snd r; next_time := snd (fst r); tau_step := tau_step st;
       save_time := save_time st;
       population_changes := population_changes st |} = OutOfFuel ->
  simulation_step sundials log_uniform (Datatypes.S fuel) traj increment st
  = OutOfFuel.
Proof.
  intros Hcv Hemit. unfold simulation_step. simpl. rewrite Hcv. simpl.
  exact Hemit.
Qed.

Lemma step_loop_exhausts (steps fuel traj : nat) (increment : float)
    (st : trajectory_state sundials) :
  (current_time (simulation_object (solver st))
   <? end_time (simulation_object (solver st)))%float = true ->
  simulation_step sundials log_uniform fuel traj increment st = OutOfFuel ->
  step_loop sundials log_uniform (Datatypes.S steps) fuel traj increment st
  = OutOfFuel.
Proof. intros Hlt Hstep. simpl. rewrite Hlt, Hstep. reflexivity. Qed.

Lemma run_trajectory_exhausts (fuel : nat) (increment : float) (traj : nat)
    (g g1 : solver_state) (yr : N_Vector * mt19937_64) :
  for_range 0 (number_species (model (simulation_object g)))
    reset_current_state g = Done g1 ->
  init_y0 log_uniform (simulation_object g1) (rng g1) = Done yr ->
  step_loop sundials log_uniform fuel fuel traj increment
    {| solver := set_rng g1 (snd yr); y0 := fst yr;
       cvode_mem :=
         fst (init_integrator sundials reltol abstol
                {| my_sim := simulation_object g1 |} (fst yr));
       flag :=
         snd (init_integrator sundials reltol abstol
                {| my_sim := simulation_object g1 |} (fst yr));
       next_time := 0%float; tau_step := increment; save_time := 0;
       population_changes :=
         replicate (number_species (model (simulation_object g))) 0 |}
  = OutOfFuel ->
  run_trajectory sundials log_uniform reltol abstol fuel increment traj g
  = OutOfFuel.
Proof.
  intros Hreset Hy Hloop. unfold run_trajectory. rewrite Hreset. simpl.
  rewrite Hy. simpl. rewrite Hloop. reflexivity.
Qed.

Lemma run_trajectories_exhausts (fuel : nat) (increment : float) (p : Process)
    (g : solver_state) (n : nat) :
  number_trajectories (simulation_object g) = Datatypes.S n ->
  interrupted p = false ->
  run_trajectory sundials log_uniform reltol abstol fuel increment 0 g
  = OutOfFuel ->
  run_trajectories sundials log_uniform reltol abstol fuel increment p g
  = OutOfFuel.
Proof.
  intros Hn Hp Hrun. unfold run_trajectories. rewrite Hn. simpl.
  rewrite Hp, Hrun. reflexivity.
Qed.

Lemma TauHybridCSolver_exhausts (fuel : nat) (sim : Simulation) (tau_tol : float)
    (p : Process) (t0 t1 : float) (g : solver_state) :
  timeline sim !! 1%nat = Some t1 ->
  timeline sim !! 0%nat = Some t0 ->
  for_range 0 (number_species (model sim)) copy_initial_state
    (declare_locals sim) = Done g ->
  run_trajectories sundials log_uniform reltol abstol fuel (t1 - t0)%float
    (signal_SIGINT signalHandler p) g = OutOfFuel ->
  TauHybridCSolver sundials log_uniform reltol abstol fuel (Some sim) tau_tol p
  = OutOfFuel.
Proof.
  intros H1 H0 Hcopy Hrun. unfold TauHybridCSolver, load.
  rewrite H1, H0. simpl. rewrite Hcopy. simpl. rewrite Hrun. reflexivity.
Qed.

End Exhaustion.

(** The call of the solver on the first scenario of the specification (two
    species, no reaction, eleven time points from 0 to 1) exhausts every
    fuel. *)
Lemma solver_spins_on_tenths (fuel : nat) :
  TauHybridCSolver euler (fixed_draw (-1)%float) example_tolerance
    example_tolerance fuel (Some still_simulation) 0.03125%float
    process_at_start
  = OutOfFuel.
Proof.
  destruct fuel as [|fuel]; [reflexivity|].
  eapply TauHybridCSolver_exhausts;
    [reflexivity | reflexivity | cbv; reflexivity |].
  eapply run_trajectories_exhausts; [reflexivity | reflexivity |].
  eapply run_trajectory_exhausts; [cbv; reflexivity | cbv; reflexivity |].
  eapply step_loop_exhausts; [reflexivity|].
  eapply simulation_step_exhausts; [cbv; reflexivity|].
  apply emit_samples_spins; reflexivity.
Qed.

(** C8, at the first scenario of the specification: after the first advance
    the output loop writes the cell of index 0 and adds the spacing 0.1 to
    the [int] index 0, which stays 0, so the call of the solver exhausts
    every fuel: it never returns.  On the time points 0, 2, 4 the index goes
    0, 2, 4: the cell of index 1 is never written and the write at index 4
    is outside the three time steps of the buffer. *)
Theorem output_index_is_advanced_by_the_spacing :
  (forall fuel,
     TauHybridCSolver euler (fixed_draw (-1)%float) example_tolerance
       example_tolerance fuel (Some still_simulation) 0.03125%float
       process_at_start
     = OutOfFuel) /\
  TauHybridCSolver euler (fixed_draw (-1)%float) example_tolerance
    example_tolerance 10 (Some still_simulation_by_two) 0.03125%float
    process_at_start
  = Fault (OutOfBounds "trajectoriesODE[traj]" 4 3).
Proof. split; [exact solver_spins_on_tenths | vm_compute; reflexivity]. Qed.

(** ** The random seed *)

Lemma bind_outcome_map {A B C : Type} (h : A -> B) (m : outcome A)
    (k : B -> outcome C) :
  bind (outcome_map h m) k = bind m (fun x => k (h x)).
Proof. destruct m; reflexivity. Qed.

Lemma for_range_map {S : Type} (h : S -> S) (body : nat -> S -> outcome S) :
  (forall i s, body i (h s) = outcome_map h (body i s)) ->
  forall n lo s, for_range lo n body (h s) = outcome_map h (for_range lo n body s).
Proof.
  intros Hb. induction n as [|n IH]; intros lo s; simpl; [reflexivity|].
  rewrite Hb, bind_outcome_map. destruct (body lo s); simpl; auto.
Qed.

Lemma for_range_break_map {S : Type} (h : S -> S)
    (body : nat -> S -> outcome (bool * S)) :
  (forall i s, body i (h s) = outcome_map (fun r => (fst r, h (snd r))) (body i s)) ->
  forall n lo s,
    for_range_break lo n body (h s) = outcome_map h (for_range_break lo n body s).
Proof.
  intros Hb. induction n as [|n IH]; intros lo s; simpl; [reflexivity|].
  rewrite Hb, bind_outcome_map. destruct (body lo s) as [[b t]| |]; simpl; auto.
  destruct b; simpl; auto.
Qed.

Lemma store_trajectoriesODE_reseed (seed : Z) (sim : Simulation) (traj : nat)
    (k : Z) (s : nat) (x : float) :
  store_trajectoriesODE (set_random_seed sim seed) traj k s x
  = outcome_map (fun sim' => set_random_seed sim' seed)
      (store_trajectoriesODE sim traj k s x).
Proof.
  unfold store_trajectoriesODE. simpl.
  destruct (load "trajectoriesODE" (trajectoriesODE sim) traj) as [plane| |];
    simpl; [|reflexivity..].
  destruct (subscript "trajectoriesODE[traj]" (length plane) k) as [i| |];
    simpl; [|reflexivity..].
  destruct (load "trajectoriesODE[traj]" plane i) as [row| |];
    simpl; [|reflexivity..].
  destruct (store "trajectoriesODE[traj][k]" row s x); reflexivity.
Qed.

Lemma copy_initial_state_reseed (seed : Z) (s : nat) (g : solver_state) :
  copy_initial_state s (reseed_solver seed g)
  = outcome_map (reseed_solver seed) (copy_initial_state s g).
Proof.
  unfold copy_initial_state. simpl.
  destruct (load "species" (species (model (simulation_object g))) s) as [sp| |];
    simpl; [|reflexivity..].
  rewrite store_trajectoriesODE_reseed, bind_outcome_map.
  destruct (store_trajectoriesODE (simulation_object g) 0 0 s
              (int_to_double (initial_population sp))); simpl; [|reflexivity..].
  destruct (store "current_state" (current_state g) s
              (int_to_double (initial_population sp))); reflexivity.
Qed.

Lemma reset_current_state_reseed (seed : Z) (s : nat) (g : solver_state) :
  reset_current_state s (reseed_solver seed g)
  = outcome_map (reseed_solver seed) (reset_current_state s g).
Proof.
  unfold reset_current_state. simpl.
  destruct (load "species" (species (model (simulation_object g))) s) as [sp| |];
    simpl; [|reflexivity..].
  destruct (store "current_state" (current_state g) s
              (int_to_double (initial_population sp))); reflexivity.
Qed.

Lemma f_reseed (seed : Z) (sim : Simulation) :
  same_for_f {| my_sim := sim |} {| my_sim := set_random_seed sim seed |}.
Proof. intros t Y dydt. reflexivity. Qed.

Lemma outcome_rel_bind {A B : Type} (R : A -> A -> Prop) (Q : B -> B -> Prop)
    (m m' : outcome A) (k k' : A -> outcome B) :
  outcome_rel R m m' ->
  (forall a a', R a a' -> outcome_rel Q (k a) (k' a')) ->
  outcome_rel Q (bind m k) (bind m' k').
Proof.
  intros Hm Hk. destruct m, m'; simpl in *; try contradiction; auto.
Qed.

Section Seed.

Variable sundials : Sundials.
Variable log_uniform : mt19937_64 -> float * mt19937_64.
Variables reltol abstol : float.

(** The integrator sees the user data only through [f]. *)
Variable similar : cvode_memory sundials -> cvode_memory sundials -> Prop.
Hypothesis opaque : user_data_is_opaque sundials similar.

Variable seed : Z.

Let reseed := reseed_trajectory sundials seed.

Lemma emit_species_reseed (traj spec_i : nat) (st : trajectory_state sundials) :
  emit_species sundials traj spec_i (reseed st)
  = outcome_map reseed (emit_species sundials traj spec_i st).
Proof.
  unfold emit_species. simpl.
  destruct (load "y0" (y0 st) spec_i) as [y| |]; simpl; [|reflexivity..].
  rewrite store_trajectoriesODE_reseed, bind_outcome_map.
  destruct (store_trajectoriesODE (simulation_object (solver st)) traj
              (save_time st) spec_i y); reflexivity.
Qed.

Lemma emit_samples_reseed (traj : nat) (increment : float) :
  forall fuel st,
    emit_samples sundials fuel traj increment (reseed st)
    = outcome_map reseed (emit_samples sundials fuel traj increment st).
Proof.
  induction fuel as [|fuel IH]; intros st; simpl; [reflexivity|].
  destruct (int_to_double (save_time st) <=? next_time st)%float; [|reflexivity].
  change (num_species_of (reseed st)) with (num_species_of st).
  rewrite (for_range_map reseed _ (emit_species_reseed traj)), bind_outcome_map.
  destruct (for_range 0 (num_species_of st) (emit_species sundials traj) st)
    as [st1| |]; simpl; [|reflexivity..].
  destruct (double_to_int (int_to_double (save_time st1) + increment))
    as [k| |]; simpl; [|reflexivity..].
  apply (IH (set_save_time st1 k)).
Qed.

Lemma reconcile_reseed (fuel : nat) (st : trajectory_state sundials) :
  reconcile sundials log_uniform fuel (reseed st)
  = outcome_map reseed (reconcile sundials log_uniform fuel st).
Proof. destruct fuel; reflexivity. Qed.

Lemma simulation_step_reseed (fuel traj : nat) (increment : float)
    (st : trajectory_state sundials) :
  simulation_step sundials log_uniform fuel traj increment (reseed st)
  = outcome_map reseed
      (simulation_step sundials log_uniform fuel traj increment st).
Proof.
  unfold simulation_step. simpl.
  destruct (CVode sundials (cvode_mem st)
              (current_time (simulation_object (solver st)) + tau_step st)
              (y0 st) CV_NORMAL) as [r| |]; simpl; [|reflexivity..].
  match goal with
  | |- bind (reconcile _ _ _ ?u) _ = _ =>
      change u with (reseed
        {| solver := solver st; y0 := snd (fst (fst r));
           cvode_mem := fst (fst (fst r)); flag := snd r;
           next_time := snd (fst r); tau_step := tau_step st;
           save_time := save_time st;
           population_changes := population_changes st |})
  end.
  rewrite reconcile_reseed, bind_outcome_map.
  match goal with
  | |- bind ?m _ = _ => destruct m as [st1| |]; simpl; [|reflexivity..]
  end.
  apply (emit_samples_reseed traj increment fuel
           (set_solver st1
              (set_simulation (solver st1)
                 (set_current_time (simulation_object (solver st1))
                    (next_time st1))))).
Qed.

Lemma step_loop_reseed (fuel traj : nat) (increment : float) :
  forall steps st,
    step_loop sundials log_uniform steps fuel traj increment (reseed st)
    = outcome_map reseed
        (step_loop sundials log_uniform steps fuel traj increment st).
Proof.
  induction steps as [|steps IH]; intros st; simpl; [reflexivity|].
  destruct (current_time (simulation_object (solver st))
            <? end_time (simulation_object (solver st)))%float; [|reflexivity].
  rewrite simulation_step_reseed, bind_outcome_map.
  destruct (simulation_step sundials log_uniform fuel traj increment st)
    as [st1| |]; simpl; [|reflexivity..].
  apply IH.
Qed.

(** Two states of a trajectory that differ in the memory of the integrator
    only, by similar memories. *)
Let alike (st st' : trajectory_state sundials) : Prop :=
  st' = set_cvode_mem st (cvode_mem st') /\
  similar (cvode_mem st) (cvode_mem st').

Lemma emit_species_memory (m : cvode_memory sundials) (traj spec_i : nat)
    (st : trajectory_state sundials) :
  emit_species sundials traj spec_i (set_cvode_mem st m)
  = outcome_map (fun u => set_cvode_mem u m)
      (emit_species sundials traj spec_i st).
Proof.
  unfold emit_species. simpl.
  destruct (load "y0" (y0 st) spec_i) as [y| |]; simpl; [|reflexivity..].
  destruct (store_trajectoriesODE (simulation_object (solver st)) traj
              (save_time st) spec_i y); reflexivity.
Qed.

Lemma emit_samples_memory (m : cvode_memory sundials) (traj : nat)
    (increment : float) :
  forall fuel st,
    emit_samples sundials fuel traj increment (set_cvode_mem st m)
    = outcome_map (fun u => set_cvode_mem u m)
        (emit_samples sundials fuel traj increment st).
Proof.
  induction fuel as [|fuel IH]; intros st; simpl; [reflexivity|].
  destruct (int_to_double (save_time st) <=? next_time st)%float; [|reflexivity].
  change (num_species_of (set_cvode_mem st m)) with (num_species_of st).
  rewrite (for_range_map (fun u => set_cvode_mem u m) _
             (emit_species_memory m traj)), bind_outcome_map.
  destruct (for_range 0 (num_species_of st) (emit_species sundials traj) st)
    as [st1| |]; simpl; [|reflexivity..].
  destruct (double_to_int (int_to_double (save_time st1) + increment))
    as [k| |]; simpl; [|reflexivity..].
  apply (IH (set_save_time st1 k)).
Qed.

Lemma simulation_step_alike (fuel traj : nat) (increment : float)
    (st st' : trajectory_state sundials) :
  alike st st' ->
  outcome_rel alike
    (simulation_step sundials log_uniform fuel traj increment st)
    (simulation_step sundials log_uniform fuel traj increment st').
Proof.
  intros [-> Hm]. generalize dependent (cvode_mem st'). clear st'.
  intros m' Hm. simpl in Hm.
  unfold simulation_step. simpl.
  pose proof (similar_CVode sundials similar opaque (cvode_mem st) m'
                (current_time (simulation_object (solver st)) + tau_step st)
                (y0 st) CV_NORMAL Hm) as Hcv.
  destruct (CVode sundials (cvode_mem st)
              (current_time (simulation_object (solver st)) + tau_step st)
              (y0 st) CV_NORMAL) as [[[[m1 y] tret] fl]| |];
    destruct (CVode sundials m'
                (current_time (simulation_object (solver st)) + tau_step st)
                (y0 st) CV_NORMAL) as [[[[m1' y'] tret'] fl']| |];
    simpl in Hcv; try contradiction; simpl; try exact Hcv.
  destruct Hcv as (Hm1 & <- & <- & <-).
  destruct fuel as [|fuel]; [exact I|].
  rewrite !reconcile_skips. cbv beta iota delta [bind].
  match goal with
  | |- outcome_rel _ (emit_samples _ _ _ _ ?u) (emit_samples _ _ _ _ ?u') =>
      change u' with (set_cvode_mem u m1');
      rewrite (emit_samples_memory m1' traj increment (Datatypes.S fuel) u);
      pose proof (emit_samples_frame sundials (Datatypes.S fuel) traj
                    increment u) as Hf;
      destruct (emit_samples sundials (Datatypes.S fuel) traj increment u)
        as [st2| |]; simpl; auto
  end.
  specialize (Hf st2 eq_refl). apply emission_frame_inv in Hf.
  destruct Hf as (_ & _ & _ & _ & Hmem & _). simpl in Hmem.
  split; [reflexivity|]. simpl. rewrite Hmem. exact Hm1.
Qed.

Lemma step_loop_alike (fuel traj : nat) (increment : float) :
  forall steps (st st' : trajectory_state sundials),
    alike st st' ->
    outcome_rel alike
      (step_loop sundials log_uniform steps fuel traj increment st)
      (step_loop sundials log_uniform steps fuel traj increment st').
Proof.
  induction steps as [|steps IH]; intros st st' Hst; simpl; [exact I|].
  assert (Hs : solver st' = solver st) by (destruct Hst as [-> _]; reflexivity).
  rewrite Hs.
  destruct (current_time (simulation_object (solver st))
            <? end_time (simulation_object (solver st)))%float; [|exact Hst].
  apply (outcome_rel_bind alike alike).
  - apply simulation_step_alike, Hst.
  - intros u u' Hu. apply IH, Hu.
Qed.

(** The memories of the integrator that the driver sets up for a simulation
    and for the same simulation with another [random_seed] are similar: the
    right-hand side it hands over is [f], which does not read the field. *)
Lemma init_integrator_similar (sim : Simulation) (y : N_Vector) :
  similar
    (fst (init_integrator sundials reltol abstol {| my_sim := sim |} y))
    (fst (init_integrator sundials reltol abstol
            {| my_sim := set_random_seed sim seed |} y)) /\
  snd (init_integrator sundials reltol abstol {| my_sim := sim |} y)
  = snd (init_integrator sundials reltol abstol
           {| my_sim := set_random_seed sim seed |} y).
Proof.
  unfold init_integrator.
  apply (similar_CVodeSetLinearSolver sundials similar opaque).
  apply (similar_CVodeSetUserData sundials similar opaque);
    [|apply f_reseed].
  apply (similar_CVodeSStolerances sundials similar opaque).
  apply (similar_CVodeInit sundials similar opaque).
  apply (similar_CVodeCreate sundials similar opaque).
Qed.

Lemma run_trajectory_reseed (fuel : nat) (increment : float) (traj : nat)
    (g : solver_state) :
  run_trajectory sundials log_uniform reltol abstol fuel increment traj
    (reseed_solver seed g)
  = outcome_map (reseed_solver seed)
      (run_trajectory sundials log_uniform reltol abstol fuel increment traj g).
Proof.
  unfold run_trajectory.
  change (number_species (model (simulation_object (reseed_solver seed g))))
    with (number_species (model (simulation_object g))).
  rewrite (for_range_map (reseed_solver seed) _ (reset_current_state_reseed seed)),
    bind_outcome_map.
  destruct (for_range 0 (number_species (model (simulation_object g)))
              reset_current_state g) as [g1| |]; simpl; [|reflexivity..].
  change (init_y0 log_uniform (set_random_seed (simulation_object g1) seed) (rng g1))
    with (init_y0 log_uniform (simulation_object g1) (rng g1)).
  destruct (init_y0 log_uniform (simulation_object g1) (rng g1)) as [yr| |];
    simpl; [|reflexivity..].
  destruct (init_integrator_similar (simulation_object g1) (fst yr))
    as [Hm Hfl].
  rewrite <- Hfl.
  set (m := init_integrator sundials reltol abstol
              {| my_sim := simulation_object g1 |} (fst yr)) in *.
  set (m' := init_integrator sundials reltol abstol
               {| my_sim := set_random_seed (simulation_object g1) seed |}
               (fst yr)) in *.
  set (st := {| solver := set_rng g1 (snd yr); y0 := fst yr;
                cvode_mem := fst m; flag := snd m;
                next_time := 0%float; tau_step := increment; save_time := 0;
                population_changes :=
                  replicate (number_species (model (simulation_object g))) 0 |}).
  match goal with
  | |- bind (step_loop _ _ _ _ _ _ ?u) _ = _ =>
      change u with (reseed (set_cvode_mem st (fst m')))
  end.
  rewrite step_loop_reseed, bind_outcome_map.
  pose proof (step_loop_alike fuel traj increment fuel st
                (set_cvode_mem st (fst m')) (conj eq_refl Hm)) as Hrun.
  destruct (step_loop sundials log_uniform fuel fuel traj increment st)
    as [u| |];
    destruct (step_loop sundials log_uniform fuel fuel traj increment
                (set_cvode_mem st (fst m'))) as [u'| |];
    simpl in Hrun; try contradiction; simpl; [|congruence|reflexivity].
  destruct Hrun as [-> _]. reflexivity.
Qed.

Lemma run_trajectories_reseed (fuel : nat) (increment : float) (p : Process)
    (g : solver_state) :
  run_trajectories sundials log_uniform reltol abstol fuel increment p
    (reseed_solver seed g)
  = outcome_map (reseed_solver seed)
      (run_trajectories sundials log_uniform reltol abstol fuel increment p g).
Proof.
  unfold run_trajectories.
  change (number_trajectories (simulation_object (reseed_solver seed g)))
    with (number_trajectories (simulation_object g)).
  apply for_range_break_map. intros traj s.
  destruct (interrupted p); [reflexivity|].
  rewrite run_trajectory_reseed, bind_outcome_map.
  destruct (run_trajectory sundials log_uniform reltol abstol fuel increment
              traj s); reflexivity.
Qed.


End Seed.

(** The explicit Euler step sees the user data only through [f]. *)
Lemma euler_user_data_is_opaque : user_data_is_opaque euler euler_similar.
Proof.
  split.
  - intros lmm. unfold euler_similar. simpl. auto.
  - intros m m' t0 y (Ht & Hr & Hf & Hd). unfold euler_similar. simpl.
    split_and!; auto.
  - intros m m' r a H. simpl. auto.
  - intros m m' d d' (Ht & Hr & Hf & Hd) Hdd. unfold euler_similar. simpl.
    split_and!; auto.
  - intros m m' LS H. simpl. auto.
  - intros [r d t] [r' d' t'] tout y itask (Ht & Hr & Hf & Hd).
    simpl in Ht, Hr, Hf, Hd. subst t' r'.
    change (CVode euler) with euler_CVode. unfold euler_CVode. simpl.
    destruct Hf as [-> | ->].
    + simpl. unfold euler_similar. simpl. split_and!; auto.
    + destruct d as [d|], d' as [d'|]; try contradiction.
      * rewrite (Hd t y (N_VNew_Serial (length y))).
        destruct (f t y (N_VNew_Serial (length y)) d') as [[[Y' ydot] z]| |];
          simpl; auto.
        unfold euler_similar. simpl. split_and!; auto.
      * simpl. unfold euler_similar. simpl. split_and!; auto.
Qed.



(** ** The trajectories after the first *)

(** A write to the output buffer touches the plane of its trajectory only. *)
Lemma store_trajectoriesODE_outside (sim sim' : Simulation) (traj : nat) (k : Z)
    (s : nat) (x : float) :
  store_trajectoriesODE sim traj k s x = Done sim' ->
  forall t, t <> traj -> trajectoriesODE sim' !! t = trajectoriesODE sim !! t.
Proof.
  unfold store_trajectoriesODE. intros H. done_inv H. injection H as <-.
  intros t Ht. simpl. apply list_lookup_insert_ne. congruence.
Qed.

Lemma copy_initial_state_loop_outside (n : nat) (g g' : solver_state) :
  for_range 0 n copy_initial_state g = Done g' ->
  forall t, t <> 0%nat ->
    trajectoriesODE (simulation_object g') !! t
    = trajectoriesODE (simulation_object g) !! t.
Proof.
  intros H.
  refine (for_range_invariant
            (fun _ u => forall t, t <> 0%nat ->
               trajectoriesODE (simulation_object u) !! t
               = trajectoriesODE (simulation_object g) !! t)
            _ n 0 g g' _ _ H).
  - reflexivity.
  - intros i u u' _ Hu Hb t Ht. unfold copy_initial_state in Hb. done_inv Hb.
    injection Hb as <-. simpl.
    rewrite (store_trajectoriesODE_outside _ _ _ _ _ _ Ha0 t Ht). apply Hu, Ht.
Qed.

Lemma reset_current_state_loop_simulation (n : nat) (g g' : solver_state) :
  for_range 0 n reset_current_state g = Done g' ->
  simulation_object g' = simulation_object g.
Proof.
  intros H.
  refine (for_range_invariant
            (fun _ u => simulation_object u = simulation_object g)
            _ n 0 g g' _ _ H).
  - reflexivity.
  - intros i u u' _ Hu Hb. unfold reset_current_state in Hb. done_inv Hb.
    injection Hb as <-. exact Hu.
Qed.

Section LaterTrajectories.

Variable sundials : Sundials.
Variable log_uniform : mt19937_64 -> float * mt19937_64.
Variables reltol abstol : float.

Let buffer (st : trajectory_state sundials) : list (list (list float)) :=
  trajectoriesODE (simulation_object (solver st)).

Let running (sim : Simulation) : bool :=
  (current_time sim <? end_time sim)%float.

Lemma emit_species_loop_outside (traj n : nat) (st st' : trajectory_state sundials) :
  for_range 0 n (emit_species sundials traj) st = Done st' ->
  forall t, t <> traj -> buffer st' !! t = buffer st !! t.
Proof.
  intros H.
  refine (for_range_invariant
            (fun _ u => forall t, t <> traj -> buffer u !! t = buffer st !! t)
            _ n 0 st st' _ _ H).
  - reflexivity.
  - intros i u u' _ Hu Hb t Ht. unfold emit_species in Hb. done_inv Hb.
    injection Hb as <-. unfold buffer. simpl.
    rewrite (store_trajectoriesODE_outside _ _ _ _ _ _ Ha0 t Ht). apply Hu, Ht.
Qed.

Lemma emit_samples_outside (traj : nat) (increment : float) :
  forall fuel st st',
    emit_samples sundials fuel traj increment st = Done st' ->
    forall t, t <> traj -> buffer st' !! t = buffer st !! t.
Proof.
  induction fuel as [|fuel IH]; intros st st' H t Ht; simpl in H; [discriminate|].
  destruct (int_to_double (save_time st) <=? next_time st)%float.
  - done_inv H. rewrite (IH _ _ H t Ht). simpl.
    apply (emit_species_loop_outside _ _ _ _ Ha t Ht).
  - injection H as <-. reflexivity.
Qed.

Lemma simulation_step_outside (fuel traj : nat) (increment : float)
    (st st' : trajectory_state sundials) :
  simulation_step sundials log_uniform fuel traj increment st = Done st' ->
  forall t, t <> traj -> buffer st' !! t = buffer st !! t.
Proof.
  unfold simulation_step. intros H t Ht. done_inv H.
  destruct fuel as [|fuel]; [discriminate|].
  rewrite reconcile_skips in Ha0. injection Ha0 as <-.
  rewrite (emit_samples_outside _ _ _ _ _ H t Ht). reflexivity.
Qed.

(** The step loop, when it completes: it leaves the planes of the other
    trajectories alone, it leaves the simulation past its end time, and it
    leaves the simulation alone when it finds it already there. *)
Lemma step_loop_Done (fuel traj : nat) (increment : float) :
  forall steps st st',
    step_loop sundials log_uniform steps fuel traj increment st = Done st' ->
    (forall t, t <> traj -> buffer st' !! t = buffer st !! t) /\
    running (simulation_object (solver st')) = false /\
    (running (simulation_object (solver st)) = false ->
     simulation_object (solver st') = simulation_object (solver st)).
Proof.
  induction steps as [|steps IH]; intros st st' H; simpl in H; [discriminate|].
  fold (running (simulation_object (solver st))) in H.
  destruct (running (simulation_object (solver st))) eqn:Hrun.
  - done_inv H. apply IH in H. destruct H as (Hout & Hend & _).
    split_and!; [|exact Hend|discriminate].
    intros t Ht. rewrite (Hout t Ht).
    apply (simulation_step_outside _ _ _ _ _ Ha t Ht).
  - injection H as <-. split_and!; auto.
Qed.

Lemma run_trajectory_Done (fuel : nat) (increment : float) (traj : nat)
    (g g' : solver_state) :
  run_trajectory sundials log_uniform reltol abstol fuel increment traj g
  = Done g' ->
  (forall t, t <> traj ->
     trajectoriesODE (simulation_object g') !! t
     = trajectoriesODE (simulation_object g) !! t) /\
  running (simulation_object g') = false /\
  (running (simulation_object g) = false ->
   simulation_object g' = simulation_object g).
Proof.
  unfold run_trajectory. intros H. done_inv H. injection H as <-.
  apply reset_current_state_loop_simulation in Ha.
  apply step_loop_Done in Ha1. simpl in Ha1. unfold buffer in Ha1. simpl in Ha1.
  rewrite Ha in Ha1. exact Ha1.
Qed.

Lemma run_trajectories_Done (fuel : nat) (increment : float) (p : Process)
    (g g' : solver_state) :
  run_trajectories sundials log_uniform reltol abstol fuel increment p g
  = Done g' ->
  forall t, (1 <= t)%nat ->
    trajectoriesODE (simulation_object g') !! t
    = trajectoriesODE (simulation_object g) !! t.
Proof.
  unfold run_trajectories. intros H.
  pose (Q := fun u : solver_state => forall t, (1 <= t)%nat ->
    trajectoriesODE (simulation_object u) !! t
    = trajectoriesODE (simulation_object g) !! t).
  refine (for_range_break_invariant
            (fun i u => Q u /\
               ((1 <= i)%nat -> running (simulation_object u) = false))
            Q _ _ 0 g g' _ _ _ _ H).
  - split; [intros t _; reflexivity | lia].
  - intros i u u' [HQ Hstop] Hb.
    destruct (interrupted p); [discriminate|].
    done_inv Hb. injection Hb as <-.
    apply run_trajectory_Done in Ha. destruct Ha as (Hout & Hend & Hsame).
    split; [|intros _; exact Hend].
    intros t Ht. destruct i as [|i].
    + rewrite (Hout t) by lia. apply HQ, Ht.
    + rewrite Hsame by (apply Hstop; lia). apply HQ, Ht.
  - intros i u u' [HQ _] Hb.
    destruct (interrupted p).
    + injection Hb as <-. exact HQ.
    + done_inv Hb. discriminate.
  - intros u [HQ _]. exact HQ.
Qed.

(** C6, what the code does.  When the solver returns, the plane of every
    trajectory after the first is, in the output buffer, what the caller
    passed in: its first cell has not received the initial populations. *)
Theorem later_trajectories_are_not_written (fuel : nat) (sim sim' : Simulation)
    (tau_tol : float) (p p' : Process) :
  TauHybridCSolver sundials log_uniform reltol abstol fuel (Some sim) tau_tol p
  = Done (Some sim', p') ->
  forall traj, (1 <= traj)%nat ->
    trajectoriesODE sim' !! traj = trajectoriesODE sim !! traj.
Proof.
  unfold TauHybridCSolver. intros H traj Ht. done_inv H. injection H as <- _.
  rewrite (run_trajectories_Done _ _ _ _ _ Ha2 traj Ht).
  apply (copy_initial_state_loop_outside _ _ _ Ha1). lia.
Qed.

End LaterTrajectories.

(** The theorem at the reaction-free model on the time points 0, 1, 2, run
    for two trajectories: the solver returns, the plane of the first
    trajectory holds the populations 5 and 7 and the plane of the second the
    zeros of the caller. *)
Lemma later_trajectories_are_not_written_witness :
  exists sim' p',
    TauHybridCSolver euler (fixed_draw (-1)%float) example_tolerance
      example_tolerance 5 (Some still_simulation_twice) 0.03125%float
      process_at_start = Done (Some sim', p') /\
    trajectoriesODE sim' !! 0%nat
    = Some [[5; 7]; [5; 7]; [5; 7]]%float /\
    trajectoriesODE sim' !! 1%nat
    = Some [[0; 0]; [0; 0]; [0; 0]]%float.
Proof.
  destruct (TauHybridCSolver euler (fixed_draw (-1)%float) example_tolerance
              example_tolerance 5 (Some still_simulation_twice) 0.03125%float
              process_at_start) as [[[sim'|] p']| |] eqn:E;
    try (vm_compute in E; discriminate E).
  exists sim', p'. split_and!; [reflexivity | |].
  - vm_compute in E. injection E as <- _. reflexivity.
  - rewrite (later_trajectories_are_not_written euler (fixed_draw (-1)%float)
               example_tolerance example_tolerance 5 still_simulation_twice
               sim' 0.03125%float process_at_start p' E 1%nat); [|lia].
    reflexivity.
Defined.

(** * More of the code *)

(** ** Loops that fill an array cell by cell *)

(** Writing the cell [i] of a row whose first [i] cells come from [values]. *)
Lemma insert_take_drop {A : Type} (values row : list A) (i : nat) (x : A) :
  values !! i = Some x -> (i < length row)%nat ->
  <[i := x]> (take i values ++ drop i row)
  = take (Datatypes.S i) values ++ drop (Datatypes.S i) row.
Proof.
  intros Hx Hrow. apply lookup_lt_Some in Hx as Hi.
  assert (Hlen : length (take i values) = i) by (rewrite length_take; lia).
  assert (Hlen' : length (take (Datatypes.S i) values) = Datatypes.S i)
    by (rewrite length_take; lia).
  apply list_eq. intros j.
  destruct (decide (j = i)) as [->|Hne].
  - rewrite list_lookup_insert_eq
      by (rewrite length_app, length_drop, Hlen; lia).
    rewrite lookup_app_l by lia. rewrite lookup_take_lt by lia. now rewrite Hx.
  - rewrite list_lookup_insert_ne by congruence.
    destruct (decide (j < i)%nat).
    + rewrite !lookup_app_l by lia. rewrite !lookup_take_lt by lia. reflexivity.
    + rewrite !lookup_app_r by lia. rewrite Hlen, Hlen', !lookup_drop.
      f_equal. lia.
Qed.

Lemma initial_populations_lookup (sim : Simulation) (i : nat) (sp : Species) :
  (i < number_species (model sim))%nat ->
  species (model sim) !! i = Some sp ->
  initial_populations sim !! i = Some (int_to_double (initial_population sp)).
Proof.
  intros Hi Hsp. unfold initial_populations.
  rewrite list_lookup_fmap, lookup_take_lt by exact Hi. now rewrite Hsp.
Qed.

Lemma initial_populations_length (sim : Simulation) :
  (number_species (model sim) <= length (species (model sim)))%nat ->
  length (initial_populations sim) = number_species (model sim).
Proof.
  intros H. unfold initial_populations. rewrite length_fmap, length_take. lia.
Qed.

Lemma with_row_0 (buffer : list (list (list float))) (traj k : nat)
    (values : list float) :
  with_row buffer traj k 0 values = buffer.
Proof.
  unfold with_row. destruct (buffer !! traj) as [plane|] eqn:Hp; [|reflexivity].
  destruct (plane !! k) as [row|] eqn:Hr; [|reflexivity].
  rewrite take_0, drop_0. simpl.
  rewrite (list_insert_id plane k row Hr). apply list_insert_id, Hp.
Qed.

(** One write of the output buffer, in a row whose first [i] cells already
    come from [values]. *)
Lemma store_trajectoriesODE_row (sim : Simulation)
    (buffer : list (list (list float))) (traj k i : nat) (values : list float)
    (plane : list (list float)) (row : list float) (x : float) :
  buffer !! traj = Some plane -> plane !! k = Some row ->
  values !! i = Some x -> (i < length row)%nat ->
  store_trajectoriesODE (set_trajectoriesODE sim (with_row buffer traj k i values))
    traj (Z.of_nat k) i x
  = Done (set_trajectoriesODE sim (with_row buffer traj k (Datatypes.S i) values)).
Proof.
  intros Hp Hr Hx Hi. apply lookup_lt_Some in Hp as Htraj.
  apply lookup_lt_Some in Hr as Hk. apply lookup_lt_Some in Hx as Hv.
  unfold store_trajectoriesODE, with_row. simpl. rewrite Hp, Hr.
  unfold load. rewrite list_lookup_insert_eq by exact Htraj. simpl.
  unfold subscript. destruct (decide (0 <= Z.of_nat k)); [|lia]. simpl.
  rewrite Nat2Z.id. rewrite list_lookup_insert_eq by exact Hk. simpl.
  rewrite store_in_range
    by (rewrite length_app, length_take, length_drop; lia).
  simpl. rewrite (insert_take_drop values row i x Hx Hi).
  rewrite !list_insert_insert_eq. reflexivity.
Qed.

(** ** The start of a run and of a trajectory *)

Lemma init_concentration_loop (sim : Simulation) (y : N_Vector) :
  (number_species (model sim) <= length (species (model sim)))%nat ->
  (number_species (model sim) <= length y)%nat ->
  for_range 0 (number_species (model sim)) (init_concentration sim) y
  = Done (initial_populations sim ++ drop (number_species (model sim)) y).
Proof.
  intros Hsp Hy. set (ns := number_species (model sim)) in *.
  destruct (for_range_completes
              (fun i (u : N_Vector) =>
                 u = take i (initial_populations sim) ++ drop i y)
              (init_concentration sim) ns 0 y) as (y' & Hrun & Hy').
  - now rewrite take_0, drop_0.
  - intros i u Hi ->. unfold init_concentration.
    destruct (load_in_range "species" (species (model sim)) i)
      as (sp & -> & Hspi); [lia|]. simpl.
    rewrite store_in_range
      by (rewrite length_app, length_take, length_drop,
            initial_populations_length by exact Hsp; fold ns; lia).
    eexists. split; [reflexivity|].
    apply insert_take_drop; [|lia].
    apply initial_populations_lookup; [fold ns; lia | exact Hspi].
  - rewrite Hrun, Hy'. simpl. f_equal. f_equal.
    apply take_ge. rewrite initial_populations_length by exact Hsp.
    fold ns. lia.
Qed.

Lemma init_y0_initial_populations
    (log_uniform : mt19937_64 -> float * mt19937_64) (sim : Simulation)
    (r : mt19937_64) :
  number_reactions (model sim) = 0%nat ->
  (number_species (model sim) <= length (species (model sim)))%nat ->
  init_y0 log_uniform sim r = Done (initial_populations sim, r).
Proof.
  intros Hnr Hsp. unfold init_y0.
  rewrite init_concentration_loop
    by (try exact Hsp; unfold N_VNew_Serial; rewrite length_replicate; lia).
  simpl. rewrite Hnr. simpl. f_equal. f_equal.
  unfold N_VNew_Serial. rewrite drop_ge; [apply app_nil_r|].
  rewrite length_replicate. lia.
Qed.

(** X1.  On a model without reactions whose species array has its
    [number_species] entries, the integration vector of a trajectory is the
    vector of the initial populations, and no random number is drawn for
    it. *)
Theorem init_y0_without_reactions
    (log_uniform : mt19937_64 -> float * mt19937_64) (sim : Simulation)
    (r : mt19937_64) :
  number_reactions (model sim) = 0%nat ->
  (number_species (model sim) <= length (species (model sim)))%nat ->
  init_y0 log_uniform sim r = Done (initial_populations sim, r).
Proof. apply init_y0_initial_populations. Qed.

Lemma init_y0_without_reactions_witness :
  init_y0 (fixed_draw (-1)%float) still_simulation small_engine
  = Done ([5; 7]%float, small_engine).
Proof.
  apply (init_y0_without_reactions (fixed_draw (-1)%float) still_simulation
           small_engine); simpl; lia.
Defined.

Lemma set_current_state_same (g : solver_state) :
  set_current_state g (current_state g) = g.
Proof. destruct g. reflexivity. Qed.

Lemma reset_current_state_loop_result (g : solver_state) :
  (number_species (model (simulation_object g))
   <= length (species (model (simulation_object g))))%nat ->
  length (current_state g) = number_species (model (simulation_object g)) ->
  for_range 0 (number_species (model (simulation_object g)))
    reset_current_state g
  = Done (set_current_state g (initial_populations (simulation_object g))).
Proof.
  intros Hsp Hcs. set (sim := simulation_object g) in *.
  set (ns := number_species (model sim)) in *.
  destruct (for_range_completes
              (fun i (u : solver_state) =>
                 u = set_current_state g
                       (take i (initial_populations sim)
                        ++ drop i (current_state g)))
              reset_current_state ns 0 g) as (g' & Hrun & Hg').
  - rewrite take_0, drop_0. simpl. symmetry. apply set_current_state_same.
  - intros i u Hi ->. unfold reset_current_state. simpl. fold sim.
    destruct (load_in_range "species" (species (model sim)) i)
      as (sp & -> & Hspi); [lia|]. simpl.
    rewrite store_in_range
      by (rewrite length_app, length_take, length_drop,
            initial_populations_length by exact Hsp; fold ns; lia).
    eexists. split; [reflexivity|]. unfold set_current_state. simpl.
    f_equal. apply insert_take_drop; [|lia].
    apply initial_populations_lookup; [fold ns; lia | exact Hspi].
  - rewrite Hrun, Hg'. simpl. f_equal. f_equal.
    rewrite drop_ge by lia. rewrite app_nil_r.
    apply take_ge. rewrite initial_populations_length by exact Hsp.
    fold ns. lia.
Qed.

(** X2.  The loop at the top of every trajectory puts the initial
    populations back into [current_state], whatever the previous trajectory
    left there, and touches nothing else. *)
Theorem reset_current_state_loop (g : solver_state) :
  (number_species (model (simulation_object g))
   <= length (species (model (simulation_object g))))%nat ->
  length (current_state g) = number_species (model (simulation_object g)) ->
  for_range 0 (number_species (model (simulation_object g)))
    reset_current_state g
  = Done (set_current_state g (initial_populations (simulation_object g))).
Proof. apply reset_current_state_loop_result. Qed.

Lemma reset_current_state_loop_witness :
  for_range 0 2 reset_current_state
    {| simulation_object := still_simulation;
       current_state := [-3; 0.5]%float;
       propensity_values := []; rng := small_engine |}
  = Done {| simulation_object := still_simulation;
            current_state := [5; 7]%float;
            propensity_values := []; rng := small_engine |}.
Proof.
  apply (reset_current_state_loop
           {| simulation_object := still_simulation;
              current_state := [-3; 0.5]%float;
              propensity_values := []; rng := small_engine |});
    simpl; lia.
Defined.

(** The loop before the trajectories: the first row of the first trajectory
    and [current_state] receive the initial populations. *)
Lemma copy_initial_state_loop (sim : Simulation) (plane : list (list float))
    (row : list float) :
  (number_species (model sim) <= length (species (model sim)))%nat ->
  trajectoriesODE sim !! 0%nat = Some plane ->
  plane !! 0%nat = Some row ->
  (number_species (model sim) <= length row)%nat ->
  for_range 0 (number_species (model sim)) copy_initial_state
    (declare_locals sim)
  = Done {| simulation_object :=
              set_trajectoriesODE sim
                (with_row (trajectoriesODE sim) 0 0 (number_species (model sim))
                   (initial_populations sim));
            current_state := initial_populations sim;
            propensity_values :=
              replicate (number_reactions (model sim)) 0%float;
            rng := mt19937_64_default |}.
Proof.
  intros Hsp Hp Hr Hrow. set (ns := number_species (model sim)) in *.
  destruct (for_range_completes
              (fun i (u : solver_state) =>
                 u = {| simulation_object :=
                          set_trajectoriesODE sim
                            (with_row (trajectoriesODE sim) 0 0 i
                               (initial_populations sim));
                        current_state :=
                          take i (initial_populations sim)
                          ++ drop i (replicate ns 0%float);
                        propensity_values :=
                          replicate (number_reactions (model sim)) 0%float;
                        rng := mt19937_64_default |})
              copy_initial_state ns 0 (declare_locals sim))
    as (g' & Hrun & Hg').
  - rewrite with_row_0, take_0, drop_0. unfold declare_locals. fold ns.
    f_equal. destruct sim. reflexivity.
  - intros i u Hi ->. unfold copy_initial_state. simpl.
    destruct (load_in_range "species" (species (model sim)) i)
      as (sp & -> & Hspi); [lia|]. simpl.
    assert (Hx : initial_populations sim !! i
                 = Some (int_to_double (initial_population sp)))
      by (apply initial_populations_lookup; [fold ns; lia | exact Hspi]).
    assert (Hw := store_trajectoriesODE_row sim (trajectoriesODE sim) 0 0 i
                    (initial_populations sim) plane row
                    (int_to_double (initial_population sp)) Hp Hr Hx
                    ltac:(lia)).
    change (Z.of_nat 0) with 0 in Hw. rewrite Hw. clear Hw. simpl.
    rewrite store_in_range
      by (rewrite length_app, length_take, length_drop, length_replicate,
            initial_populations_length by exact Hsp; fold ns; lia).
    eexists. split; [reflexivity|].
    unfold set_current_state, set_simulation. simpl. f_equal.
    apply insert_take_drop;
      [apply initial_populations_lookup; [fold ns; lia | exact Hspi]|].
    rewrite length_replicate. lia.
  - rewrite Hrun, Hg'. simpl. f_equal. f_equal.
    rewrite drop_ge by (rewrite length_replicate; lia). rewrite app_nil_r.
    apply take_ge. rewrite initial_populations_length by exact Hsp.
    fold ns. lia.
Qed.

(** ** Calls that run no trajectory *)

Lemma with_row_again (buffer : list (list (list float))) (traj k n : nat)
    (values : list float) :
  (n <= length values)%nat ->
  with_row (with_row buffer traj k n values) traj k n values
  = with_row buffer traj k n values.
Proof.
  intros Hn. unfold with_row at 2 3.
  destruct (buffer !! traj) as [plane|] eqn:Hp; [|unfold with_row; now rewrite Hp].
  destruct (plane !! k) as [row|] eqn:Hr;
    [|unfold with_row; now rewrite Hp, Hr].
  apply lookup_lt_Some in Hp as Htraj. apply lookup_lt_Some in Hr as Hk.
  unfold with_row. rewrite list_lookup_insert_eq by exact Htraj.
  rewrite list_lookup_insert_eq by exact Hk.
  rewrite !list_insert_insert_eq. do 2 f_equal.
  rewrite drop_app_length'; [reflexivity|].
  rewrite length_take. lia.
Qed.

(** The solver when the trajectory loop has nothing to run. *)
Lemma solver_without_trajectories (sundials : Sundials)
    (log_uniform : mt19937_64 -> float * mt19937_64) (reltol abstol : float)
    (fuel : nat) (sim : Simulation) (tau_tol : float) (p : Process)
    (plane : list (list float)) (row : list float) :
  interrupted p = true \/ number_trajectories sim = 0%nat ->
  (2 <= length (timeline sim))%nat ->
  (number_species (model sim) <= length (species (model sim)))%nat ->
  trajectoriesODE sim !! 0%nat = Some plane ->
  plane !! 0%nat = Some row ->
  (number_species (model sim) <= length row)%nat ->
  TauHybridCSolver sundials log_uniform reltol abstol fuel (Some sim) tau_tol p
  = Done (Some (set_trajectoriesODE sim
                  (with_row (trajectoriesODE sim) 0 0
                     (number_species (model sim)) (initial_populations sim))),
          {| interrupted := interrupted p; sigint := signalHandler |}).
Proof.
  intros Hskip Ht Hsp Hp Hr Hrow. unfold TauHybridCSolver.
  destruct (load_in_range "timeline" (timeline sim) 1) as (t1 & -> & _); [lia|].
  destruct (load_in_range "timeline" (timeline sim) 0) as (t0 & -> & _); [lia|].
  simpl. rewrite (copy_initial_state_loop sim plane row Hsp Hp Hr Hrow). simpl.
  unfold run_trajectories. simpl.
  destruct (number_trajectories sim) as [|n]; [reflexivity|].
  destruct Hskip as [Hi | Hn]; [|discriminate Hn].
  simpl. unfold signal_SIGINT. rewrite !Hi. reflexivity.
Qed.

(** X3.  When the interrupt flag is already set at the call, or the
    simulation asks for no trajectory, the solver returns with any fuel,
    without calling the integrator: the first row of the first trajectory
    holds the initial populations and nothing else of the simulation has
    changed, [current_time] included. *)
Theorem solver_runs_no_trajectory (sundials : Sundials)
    (log_uniform : mt19937_64 -> float * mt19937_64) (reltol abstol : float)
    (fuel : nat) (sim : Simulation) (tau_tol : float) (p : Process)
    (plane : list (list float)) (row : list float) :
  interrupted p = true \/ number_trajectories sim = 0%nat ->
  (2 <= length (timeline sim))%nat ->
  (number_species (model sim) <= length (species (model sim)))%nat ->
  trajectoriesODE sim !! 0%nat = Some plane ->
  plane !! 0%nat = Some row ->
  (number_species (model sim) <= length row)%nat ->
  TauHybridCSolver sundials log_uniform reltol abstol fuel (Some sim) tau_tol p
  = Done (Some (set_trajectoriesODE sim
                  (with_row (trajectoriesODE sim) 0 0
                     (number_species (model sim)) (initial_populations sim))),
          {| interrupted := interrupted p; sigint := signalHandler |}).
Proof. apply solver_without_trajectories. Qed.

Lemma solver_runs_no_trajectory_witness :
  TauHybridCSolver euler (fixed_draw (-1)%float) example_tolerance
    example_tolerance 0 (Some still_simulation_twice) 0.03125%float
    {| interrupted := true; sigint := SIG_DFL |}
  = Done (Some (set_trajectoriesODE still_simulation_twice
                  [[[5; 7]; [0; 0]; [0; 0]]; [[0; 0]; [0; 0]; [0; 0]]]%float),
          {| interrupted := true; sigint := signalHandler |}).
Proof.
  apply (solver_runs_no_trajectory euler (fixed_draw (-1)%float)
           example_tolerance example_tolerance 0 still_simulation_twice
           0.03125%float {| interrupted := true; sigint := SIG_DFL |}
           [[0; 0]; [0; 0]; [0; 0]]%float [0; 0]%float);
    try reflexivity; simpl; auto; lia.
Defined.

(** X4.  Nothing clears the flag that [signalHandler] sets.  After the
    handler has run, a call of the solver returns the simulation with the
    initial populations in its first row and the flag still set, and a second
    call on that result returns it unchanged. *)
Theorem interrupt_is_never_cleared (sundials : Sundials)
    (log_uniform : mt19937_64 -> float * mt19937_64) (reltol abstol : float)
    (fuel fuel' : nat) (sim : Simulation) (tau_tol : float) (signum : Z)
    (p : Process) (plane : list (list float)) (row : list float) :
  (2 <= length (timeline sim))%nat ->
  (number_species (model sim) <= length (species (model sim)))%nat ->
  trajectoriesODE sim !! 0%nat = Some plane ->
  plane !! 0%nat = Some row ->
  (number_species (model sim) <= length row)%nat ->
  exists sim1 p1,
    TauHybridCSolver sundials log_uniform reltol abstol fuel (Some sim) tau_tol
      (run_signalHandler signum p) = Done (Some sim1, p1) /\
    interrupted p1 = true /\
    TauHybridCSolver sundials log_uniform reltol abstol fuel' (Some sim1)
      tau_tol p1 = Done (Some sim1, p1).
Proof.
  intros Ht Hsp Hp Hr Hrow.
  pose (ns := number_species (model sim)).
  pose (row1 := take ns (initial_populations sim) ++ drop ns row).
  pose (B1 := with_row (trajectoriesODE sim) 0 0 ns (initial_populations sim)).
  pose (p1 := {| interrupted := true; sigint := signalHandler |}).
  apply lookup_lt_Some in Hp as Htraj. apply lookup_lt_Some in Hr as Hk.
  assert (Hlen : length (initial_populations sim) = ns)
    by (apply initial_populations_length; exact Hsp).
  exists (set_trajectoriesODE sim B1), p1. split_and!.
  - apply (solver_without_trajectories sundials log_uniform reltol abstol fuel
             sim tau_tol (run_signalHandler signum p) plane row);
      auto.
  - reflexivity.
  - assert (E := solver_without_trajectories sundials log_uniform reltol abstol
                   fuel' (set_trajectoriesODE sim B1) tau_tol p1
                   (<[0%nat := row1]> plane) row1).
    change (Done (Some (set_trajectoriesODE (set_trajectoriesODE sim B1)
                          (with_row (trajectoriesODE (set_trajectoriesODE sim B1))
                             0 0
                             (number_species (model (set_trajectoriesODE sim B1)))
                             (initial_populations (set_trajectoriesODE sim B1)))),
                  {| interrupted := interrupted p1; sigint := signalHandler |}))
      with (Done (Some (set_trajectoriesODE sim
                          (with_row B1 0 0 ns (initial_populations sim))),
                  p1)) in E.
    unfold B1 in E. rewrite with_row_again in E by lia.
    apply E; clear E.
    + left. reflexivity.
    + exact Ht.
    + exact Hsp.
    + simpl. unfold B1, with_row. rewrite Hp, Hr.
      apply list_lookup_insert_eq. exact Htraj.
    + apply list_lookup_insert_eq. exact Hk.
    + simpl. unfold row1. rewrite length_app, length_take, length_drop, Hlen.
      fold ns in Hrow. lia.
Qed.

Lemma interrupt_is_never_cleared_witness :
  exists sim1 p1,
    TauHybridCSolver euler (fixed_draw (-1)%float) example_tolerance
      example_tolerance 3 (Some still_simulation_twice) 0.03125%float
      (run_signalHandler 2 process_at_start) = Done (Some sim1, p1) /\
    interrupted p1 = true /\
    TauHybridCSolver euler (fixed_draw (-1)%float) example_tolerance
      example_tolerance 7 (Some sim1) 0.03125%float p1 = Done (Some sim1, p1).
Proof.
  apply (interrupt_is_never_cleared euler (fixed_draw (-1)%float)
           example_tolerance example_tolerance 3 7 still_simulation_twice
           0.03125%float 2 process_at_start
           [[0; 0]; [0; 0]; [0; 0]]%float [0; 0]%float);
    try reflexivity; simpl; lia.
Defined.

(** ** What a call changes and what it leaves *)

Lemma store_trajectoriesODE_fixed (sim sim' : Simulation) (traj : nat) (k : Z)
    (s : nat) (x : float) :
  store_trajectoriesODE sim traj k s x = Done sim' ->
  fixed_part sim' = fixed_part sim /\ current_time sim' = current_time sim.
Proof.
  unfold store_trajectoriesODE. intros H. done_inv H. injection H as <-.
  split; reflexivity.
Qed.

Lemma copy_initial_state_loop_fixed (n : nat) (g g' : solver_state) :
  for_range 0 n copy_initial_state g = Done g' ->
  fixed_part (simulation_object g') = fixed_part (simulation_object g) /\
  current_time (simulation_object g') = current_time (simulation_object g) /\
  (n <= length (species (model (simulation_object g))))%nat.
Proof.
  intros H.
  refine (for_range_invariant
            (fun i u =>
               fixed_part (simulation_object u) = fixed_part (simulation_object g) /\
               current_time (simulation_object u)
               = current_time (simulation_object g) /\
               (i <= length (species (model (simulation_object g))))%nat)
            _ n 0 g g' _ _ H).
  - split_and!; [reflexivity | reflexivity | lia].
  - intros i u u' _ (Hf & Hc & Hl) Hb. unfold copy_initial_state in Hb.
    done_inv Hb. injection Hb as <-. simpl.
    apply store_trajectoriesODE_fixed in Ha0. destruct Ha0 as [Hf' Hc'].
    apply load_Done, lookup_lt_Some in Ha.
    assert (Hm : model (simulation_object u) = model (simulation_object g))
      by exact (f_equal model Hf).
    rewrite Hm in Ha. split_and!; [congruence | congruence | lia].
Qed.

Section Frame.

Variable sundials : Sundials.
Variable log_uniform : mt19937_64 -> float * mt19937_64.
Variables reltol abstol : float.

(** What a pass of the step loop keeps: the step size, the populations in
    [current_state], the engine, and of the simulation everything but the
    time and the output buffer. *)
Lemma simulation_step_keeps (fuel traj : nat) (increment : float)
    (st st' : trajectory_state sundials) :
  simulation_step sundials log_uniform fuel traj increment st = Done st' ->
  fixed_part (simulation_object (solver st'))
  = fixed_part (simulation_object (solver st)) /\
  tau_step st' = tau_step st /\
  current_state (solver st') = current_state (solver st) /\
  rng (solver st') = rng (solver st).
Proof.
  unfold simulation_step. intros H. done_inv H.
  destruct fuel as [|fuel]; [discriminate|].
  rewrite reconcile_skips in Ha0. injection Ha0 as <-.
  apply emit_samples_frame, emission_frame_inv in H. simpl in H.
  destruct H as (Hsim & Hc & Hr & _ & _ & _ & Ht & _).
  split_and!; try assumption.
  exact (f_equal (fun s => set_current_time s 0%float) Hsim).
Qed.

Lemma step_loop_keeps (fuel traj : nat) (increment : float) :
  forall steps (st st' : trajectory_state sundials),
    step_loop sundials log_uniform steps fuel traj increment st = Done st' ->
    fixed_part (simulation_object (solver st'))
    = fixed_part (simulation_object (solver st)) /\
    tau_step st' = tau_step st /\
    current_state (solver st') = current_state (solver st) /\
    rng (solver st') = rng (solver st).
Proof.
  induction steps as [|steps IH]; intros st st' H; simpl in H; [discriminate|].
  destruct (current_time (simulation_object (solver st))
            <? end_time (simulation_object (solver st)))%float.
  - done_inv H. apply IH in H. apply simulation_step_keeps in Ha.
    destruct H as (H1 & H2 & H3 & H4). destruct Ha as (G1 & G2 & G3 & G4).
    split_and!; congruence.
  - injection H as <-. auto.
Qed.

(** X5.  The step size is never adapted and nothing is reconciled, over the
    whole step loop of a trajectory: when the loop completes, [tau_step] is
    the one it started with, [current_state] still holds the populations it
    started with, and no random number has been drawn. *)
Theorem step_loop_never_adapts (steps fuel traj : nat) (increment : float)
    (st st' : trajectory_state sundials) :
  step_loop sundials log_uniform steps fuel traj increment st = Done st' ->
  tau_step st' = tau_step st /\
  current_state (solver st') = current_state (solver st) /\
  rng (solver st') = rng (solver st).
Proof. intros H. apply step_loop_keeps in H. tauto. Qed.

Lemma run_trajectory_fixed (fuel : nat) (increment : float) (traj : nat)
    (g g' : solver_state) :
  run_trajectory sundials log_uniform reltol abstol fuel increment traj g
  = Done g' ->
  fixed_part (simulation_object g') = fixed_part (simulation_object g).
Proof.
  unfold run_trajectory. intros H. done_inv H. injection H as <-.
  apply reset_current_state_loop_simulation in Ha.
  apply step_loop_keeps in Ha1. simpl in Ha1. destruct Ha1 as (Hf & _).
  rewrite Hf. now rewrite Ha.
Qed.

Lemma run_trajectories_fixed (fuel : nat) (increment : float) (p : Process)
    (g g' : solver_state) :
  run_trajectories sundials log_uniform reltol abstol fuel increment p g
  = Done g' ->
  fixed_part (simulation_object g') = fixed_part (simulation_object g).
Proof.
  unfold run_trajectories. intros H.
  refine (for_range_break_invariant
            (fun _ u => fixed_part (simulation_object u)
                        = fixed_part (simulation_object g))
            (fun u => fixed_part (simulation_object u)
                      = fixed_part (simulation_object g))
            _ _ 0 g g' _ _ _ _ H).
  - reflexivity.
  - intros i u u' Hu Hb. destruct (interrupted p); [discriminate|].
    done_inv Hb. injection Hb as <-. apply run_trajectory_fixed in Ha.
    congruence.
  - intros i u u' Hu Hb. destruct (interrupted p).
    + injection Hb as <-. exact Hu.
    + done_inv Hb. discriminate.
  - auto.
Qed.

(** After a loop of trajectories of which one at least has run, the
    simulation has no time left. *)
Lemma run_trajectories_time (fuel : nat) (increment : float) (p : Process)
    (g g' : solver_state) :
  interrupted p = false ->
  (1 <= number_trajectories (simulation_object g))%nat ->
  run_trajectories sundials log_uniform reltol abstol fuel increment p g
  = Done g' ->
  time_left (simulation_object g') = false.
Proof.
  unfold run_trajectories. intros Hp Hn H.
  refine (for_range_break_invariant
            (fun i u => (1 <= i)%nat -> time_left (simulation_object u) = false)
            (fun u => time_left (simulation_object u) = false)
            _ _ 0 g g' _ _ _ _ H).
  - lia.
  - intros i u u' Hu Hb _. rewrite Hp in Hb. done_inv Hb. injection Hb as <-.
    apply run_trajectory_Done in Ha. apply Ha.
  - intros i u u' Hu Hb. rewrite Hp in Hb. done_inv Hb. discriminate.
  - intros u Hu. apply Hu. lia.
Qed.

(** X6.  Whenever the solver returns, every field of the simulation other
    than [current_time] and the output buffer [trajectoriesODE] is as it was;
    in particular it never writes the integer buffer [trajectories] or the
    mode labels [trajectoriesHYBRID]. *)
Theorem solver_writes_time_and_ODE_buffer_only (fuel : nat)
    (sim sim' : Simulation) (tau_tol : float) (p p' : Process) :
  TauHybridCSolver sundials log_uniform reltol abstol fuel (Some sim) tau_tol p
  = Done (Some sim', p') ->
  fixed_part sim' = fixed_part sim /\
  trajectories sim' = trajectories sim /\
  trajectoriesHYBRID sim' = trajectoriesHYBRID sim.
Proof.
  unfold TauHybridCSolver. intros H. done_inv H. injection H as <- _.
  apply copy_initial_state_loop_fixed in Ha1. destruct Ha1 as (Hf & _).
  apply run_trajectories_fixed in Ha2.
  assert (E : fixed_part (simulation_object a2) = fixed_part sim)
    by (rewrite Ha2; exact Hf).
  split_and!; [exact E | exact (f_equal trajectories E)
               | exact (f_equal trajectoriesHYBRID E)].
Qed.

(** X7.  Whenever the solver returns after running a trajectory (the flag
    was not set and the simulation asks for one at least), it leaves
    [current_time] not below [end_time]; it never takes [current_time] back,
    so a later call on the same simulation finds no time left. *)
Theorem solver_leaves_no_time (fuel : nat) (sim sim' : Simulation)
    (tau_tol : float) (p p' : Process) :
  interrupted p = false ->
  (1 <= number_trajectories sim)%nat ->
  TauHybridCSolver sundials log_uniform reltol abstol fuel (Some sim) tau_tol p
  = Done (Some sim', p') ->
  time_left sim' = false /\ end_time sim' = end_time sim.
Proof.
  unfold TauHybridCSolver. intros Hp Hn H. done_inv H. injection H as <- _.
  apply copy_initial_state_loop_fixed in Ha1. destruct Ha1 as (Hf & _).
  assert (Hn' : number_trajectories (simulation_object a1)
                = number_trajectories sim)
    by exact (f_equal number_trajectories Hf).
  split.
  - eapply run_trajectories_time; [exact Hp | | exact Ha2]. lia.
  - apply run_trajectories_fixed in Ha2.
    exact (f_equal end_time (eq_trans Ha2 Hf)).
Qed.

(** X8.  Whenever the solver returns after running a trajectory, the model
    has no reaction and the time line has two points at least: on a model
    with a reaction the first trajectory faults before its first step. *)
Theorem solver_returns_only_without_reactions (fuel : nat)
    (sim sim' : Simulation) (tau_tol : float) (p p' : Process) :
  interrupted p = false ->
  (1 <= number_trajectories sim)%nat ->
  TauHybridCSolver sundials log_uniform reltol abstol fuel (Some sim) tau_tol p
  = Done (Some sim', p') ->
  number_reactions (model sim) = 0%nat /\ (2 <= length (timeline sim))%nat.
Proof.
  unfold TauHybridCSolver. intros Hp Hn H. done_inv H. injection H as <- _.
  apply load_Done, lookup_lt_Some in Ha.
  apply copy_initial_state_loop_fixed in Ha1. simpl in Ha1.
  destruct Ha1 as (Hf & _ & Hsp).
  split; [|lia].
  unfold run_trajectories in Ha2.
  assert (Hn' : number_trajectories (simulation_object a1)
                = number_trajectories sim)
    by exact (f_equal number_trajectories Hf).
  destruct (number_trajectories (simulation_object a1)) as [|n]; [lia|].
  simpl in Ha2. rewrite Hp in Ha2. simpl in Ha2.
  apply bind_Done in Ha2. destruct Ha2 as (r & Hr & _).
  apply bind_Done in Hr. destruct Hr as (g0 & Hg0 & _).
  unfold run_trajectory in Hg0.
  apply bind_Done in Hg0. destruct Hg0 as (g1 & Hreset & Hg0).
  apply bind_Done in Hg0. destruct Hg0 as (yr & Hy & _).
  apply reset_current_state_loop_simulation in Hreset.
  assert (Hm : model (simulation_object g1) = model sim)
    by (rewrite Hreset; exact (f_equal model Hf)).
  destruct (number_reactions (model sim)) as [|k] eqn:Hnr; [reflexivity|].
  rewrite (init_y0_overflows log_uniform (simulation_object g1) (rng g1)) in Hy.
  - discriminate.
  - rewrite Hm. exact Hsp.
  - rewrite Hm, Hnr. lia.
Qed.

End Frame.

(** ** More on the right-hand side *)

(** X9.  On a model whose arrays are as long as its counts say, the
    right-hand side returns exactly when the arrays it is given have room:
    [num_species] cells in [ydot] and in [y], and in [y], when there is a
    reaction, [2 * num_species + num_reactions] cells. *)
Theorem f_returns_iff_room (sim : Simulation) (t : float) (Y dydt : list float) :
  model_well_sized (model sim) ->
  (exists Y' dydt', f t Y dydt {| my_sim := sim |} = Done (Y', dydt', 0))
  <->
  ((number_species (model sim) <= length Y)%nat /\
   (number_species (model sim) <= length dydt)%nat /\
   (number_reactions (model sim) = 0%nat \/
    (number_species (model sim) + number_species (model sim)
     + number_reactions (model sim) <= length Y)%nat)).
Proof.
  intros Hm. split.
  - intros (Y' & dydt' & H). apply f_Done in H. tauto.
  - intros (HY & Hd & Hroom). apply f_completes; assumption.
Qed.

Lemma f_returns_iff_room_witness :
  (exists Y' dydt',
     f 0%float [8; 4; -0.5; -0.25]%float [9; 9]%float
       {| my_sim := conversion_simulation |} = Done (Y', dydt', 0))
  <->
  ((2 <= 4)%nat /\ (2 <= 2)%nat /\ (2%nat = 0%nat \/ (2 + 2 + 2 <= 4)%nat)).
Proof.
  exact (f_returns_iff_room conversion_simulation 0%float
           [8; 4; -0.5; -0.25]%float [9; 9]%float conversion_model_well_sized).
Defined.

Lemma f_populate_loop_result (n : nat) (Y dydt : list float) :
  (n <= length Y)%nat -> (n <= length dydt)%nat ->
  for_range 0 n f_populate
    {| rhs_Y := Y; rhs_dydt := dydt; rhs_concentrations := replicate n 0%float |}
  = Done {| rhs_Y := Y;
            rhs_dydt := replicate n 0%float ++ drop n dydt;
            rhs_concentrations := take n Y |}.
Proof.
  intros HY Hd.
  destruct (for_range_completes
              (fun i (u : rhs_state) =>
                 u = {| rhs_Y := Y;
                        rhs_dydt := take i (replicate n 0%float) ++ drop i dydt;
                        rhs_concentrations :=
                          take i Y ++ drop i (replicate n 0%float) |})
              f_populate n 0
              {| rhs_Y := Y; rhs_dydt := dydt;
                 rhs_concentrations := replicate n 0%float |})
    as (st & Hrun & Hst).
  - now rewrite !take_0, !drop_0.
  - intros i u Hi ->. unfold f_populate. simpl.
    destruct (load_in_range "Y" Y i) as (y & -> & Hy); [lia|]. simpl.
    rewrite store_in_range
      by (rewrite length_app, length_take, length_drop, length_replicate; lia).
    simpl.
    rewrite store_in_range
      by (rewrite length_app, length_take, length_drop, length_replicate; lia).
    eexists. split; [reflexivity|]. f_equal.
    + apply insert_take_drop; [|lia]. apply lookup_replicate_2. lia.
    + apply insert_take_drop; [exact Hy|]. rewrite length_replicate. lia.
  - rewrite Hrun, Hst. simpl. f_equal. f_equal.
    + f_equal. apply take_ge. rewrite length_replicate. lia.
    + rewrite drop_ge by (rewrite length_replicate; lia). apply app_nil_r.
Qed.

(** X10.  On a model without reactions the right-hand side returns the
    state as it was given and a derivative that is zero for every species;
    the cells of [ydot] after the species keep what they held. *)
Theorem f_without_reactions (sim : Simulation) (t : float) (Y dydt : list float) :
  number_reactions (model sim) = 0%nat ->
  (number_species (model sim) <= length Y)%nat ->
  (number_species (model sim) <= length dydt)%nat ->
  f t Y dydt {| my_sim := sim |}
  = Done (Y,
          replicate (number_species (model sim)) 0%float
          ++ drop (number_species (model sim)) dydt,
          0).
Proof.
  intros Hnr HY Hd. unfold f. simpl.
  rewrite f_populate_loop_result by assumption. simpl.
  rewrite Hnr. reflexivity.
Qed.

Lemma f_without_reactions_witness :
  f 0.5%float [5; 7; 1]%float [9; 9; 9]%float {| my_sim := still_simulation |}
  = Done ([5; 7; 1]%float, [0; 0; 9]%float, 0).
Proof.
  apply (f_without_reactions still_simulation 0.5%float [5; 7; 1]%float
           [9; 9; 9]%float); simpl; lia.
Defined.

(** X11.  A call of the right-hand side that returns has kept the lengths
    of both arrays and the concentrations: the cells of [y] below
    [num_species] are untouched. *)
Theorem f_keeps_concentrations (sim : Simulation) (t : float)
    (Y dydt Y' dydt' : list float) (z : Z) :
  f t Y dydt {| my_sim := sim |} = Done (Y', dydt', z) ->
  length Y' = length Y /\ length dydt' = length dydt /\
  forall j, (j < number_species (model sim))%nat -> Y' !! j = Y !! j.
Proof.
  intros H. pose proof (f_Done sim t Y dydt Y' dydt' z H)
    as (_ & _ & _ & _ & HlY & Hld & _).
  split_and!; [exact HlY | exact Hld |].
  intros j Hj.
  apply (proj1 (f_Done_state sim t Y dydt Y' dydt' z ltac:(lia) H)). lia.
Qed.

Lemma f_keeps_concentrations_witness :
  length [8; 4; -0.5; -0.25; 3.5; 0.75]%float
  = length [8; 4; -0.5; -0.25; 0; 0]%float /\
  length [-4; 3; 9; 9; 9; 9]%float = length [9; 9; 9; 9; 9; 9]%float /\
  forall j, (j < 2)%nat ->
    [8; 4; -0.5; -0.25; 3.5; 0.75]%float !! j
    = [8; 4; -0.5; -0.25; 0; 0]%float !! j.
Proof.
  exact (f_keeps_concentrations conversion_simulation 0%float
           [8; 4; -0.5; -0.25; 0; 0]%float [9; 9; 9; 9; 9; 9]%float
           [8; 4; -0.5; -0.25; 3.5; 0.75]%float [-4; 3; 9; 9; 9; 9]%float 0
           f_at_conversion).
Defined.

(** X12.  The derivatives the right-hand side leaves for the species depend
    on the concentrations only: two calls that return, at any two times, on
    states with the same concentrations, whatever the offsets and whatever
    [ydot] held, leave the same derivative for every species. *)
Theorem f_depends_on_concentrations_only (sim : Simulation) (t1 t2 : float)
    (Y1 Y2 d1 d2 Y1' Y2' d1' d2' : list float) (z1 z2 : Z) :
  take (number_species (model sim)) Y1 = take (number_species (model sim)) Y2 ->
  f t1 Y1 d1 {| my_sim := sim |} = Done (Y1', d1', z1) ->
  f t2 Y2 d2 {| my_sim := sim |} = Done (Y2', d2', z2) ->
  forall s, (s < number_species (model sim))%nat -> d1' !! s = d2' !! s.
Proof.
  intros Hx H1 H2 s Hs.
  apply f_Done in H1, H2.
  destruct H1 as (_ & _ & _ & _ & _ & _ & _ & E1).
  destruct H2 as (_ & _ & _ & _ & _ & _ & _ & E2).
  rewrite (E1 s Hs), (E2 s Hs), Hx. reflexivity.
Qed.

Lemma f_at_conversion_other_offsets :
  f 1%float [8; 4; 3; 0.5; 1; 1; 1]%float [0; 0]%float
    {| my_sim := conversion_simulation |}
  = Done ([8; 4; 3; 0.5; 7; 1.5; 1]%float, [-4; 3]%float, 0).
Proof. reflexivity. Qed.

Lemma f_depends_on_concentrations_only_witness :
  [-4; 3; 9; 9; 9; 9]%float !! 0%nat = [-4; 3]%float !! 0%nat /\
  [-4; 3; 9; 9; 9; 9]%float !! 1%nat = [-4; 3]%float !! 1%nat.
Proof.
  split;
    apply (f_depends_on_concentrations_only conversion_simulation 0%float
             1%float
             [8; 4; -0.5; -0.25; 0; 0]%float [8; 4; 3; 0.5; 1; 1; 1]%float
             [9; 9; 9; 9; 9; 9]%float [0; 0]%float
             [8; 4; -0.5; -0.25; 3.5; 0.75]%float
             [8; 4; 3; 0.5; 7; 1.5; 1]%float
             [-4; 3; 9; 9; 9; 9]%float [-4; 3]%float 0 0
             eq_refl f_at_conversion f_at_conversion_other_offsets);
    simpl; lia.
Defined.

(** ** One pass of the output loop *)

Lemma set_solver_simulation_same (sundials : Sundials)
    (st : trajectory_state sundials) :
  set_solver st
    (set_simulation (solver st)
       (set_trajectoriesODE (simulation_object (solver st))
          (trajectoriesODE (simulation_object (solver st)))))
  = st.
Proof. destruct st as [[[] ? ? ?] ? ? ? ? ? ? ?]. reflexivity. Qed.

(** X13.  One pass of the output loop copies the concentrations, the first
    [num_species] cells of the integration vector, as they are into the row
    [save_time] of the trajectory, and changes nothing else: the values
    recorded are those of the integrator, neither rounded nor clamped. *)
Theorem emit_species_loop_result (sundials : Sundials) (traj : nat)
    (st : trajectory_state sundials) (plane : list (list float))
    (row : list float) :
  0 <= save_time st ->
  trajectoriesODE (simulation_object (solver st)) !! traj = Some plane ->
  plane !! Z.to_nat (save_time st) = Some row ->
  (num_species_of st <= length row)%nat ->
  (num_species_of st <= length (y0 st))%nat ->
  for_range 0 (num_species_of st) (emit_species sundials traj) st
  = Done (set_solver st
            (set_simulation (solver st)
               (set_trajectoriesODE (simulation_object (solver st))
                  (with_row (trajectoriesODE (simulation_object (solver st)))
                     traj (Z.to_nat (save_time st)) (num_species_of st)
                     (y0 st))))).
Proof.
  intros Hk Hp Hr Hrow Hy.
  set (sim := simulation_object (solver st)) in *.
  set (ns := num_species_of st) in *.
  set (k := Z.to_nat (save_time st)) in *.
  destruct (for_range_completes
              (fun i (u : trajectory_state sundials) =>
                 u = set_solver st
                       (set_simulation (solver st)
                          (set_trajectoriesODE sim
                             (with_row (trajectoriesODE sim) traj k i (y0 st)))))
              (emit_species sundials traj) ns 0 st) as (st' & Hrun & Hst').
  - rewrite with_row_0. symmetry. apply set_solver_simulation_same.
  - intros i u Hi ->. unfold emit_species. simpl.
    destruct (load_in_range "y0" (y0 st) i) as (y & -> & Hyi); [lia|]. simpl.
    assert (Hw := store_trajectoriesODE_row sim (trajectoriesODE sim) traj k i
                    (y0 st) plane row y Hp Hr Hyi ltac:(lia)).
    unfold k in Hw at 2. rewrite Z2Nat.id in Hw by exact Hk.
    rewrite Hw. simpl. eexists. split; reflexivity.
  - rewrite Hrun, Hst'. reflexivity.
Qed.

Lemma emit_species_loop_result_witness :
  for_range 0 1 (emit_species stationary 0) (birth_death_state 2.5 0.5 (-0.25))
  = Done (set_solver (birth_death_state 2.5 0.5 (-0.25))
            (set_simulation (solver (birth_death_state 2.5 0.5 (-0.25)))
               (set_trajectoriesODE birth_death_simulation
                  [[[2.5]; [0]; [0]]]%float))).
Proof.
  apply (emit_species_loop_result stationary 0
           (birth_death_state 2.5 0.5 (-0.25)) [[0]; [0]; [0]]%float
           [0]%float).
  - change (0 <= 0). lia.
  - reflexivity.
  - reflexivity.
  - change (1 <= 1)%nat. lia.
  - change (1 <= 3)%nat. lia.
Defined.

(** ** The order on species *)

(** X14.  The comparison of two species looks at their identifiers only and
    is a strict weak order, as an ordered container requires: it is
    irreflexive and transitive, being equivalent for it is transitive, and
    two species are equivalent exactly when they have the same identifier,
    whatever their names and populations. *)
Theorem Species_lt_strict_weak_order :
  (forall a, Species_lt a a = false) /\
  (forall a b c, Species_lt a b = true -> Species_lt b c = true ->
                 Species_lt a c = true) /\
  (forall a b c, Species_equiv a b -> Species_equiv b c -> Species_equiv a c) /\
  (forall a b, Species_equiv a b <-> species_id a = species_id b).
Proof.
  unfold Species_equiv, Species_lt. split_and!.
  - intros a. apply bool_decide_eq_false. lia.
  - intros a b c H1 H2. apply bool_decide_eq_true in H1, H2.
    apply bool_decide_eq_true. lia.
  - intros a b c [H1 H2] [H3 H4]. apply bool_decide_eq_false in H1, H2, H3, H4.
    split; apply bool_decide_eq_false; lia.
  - intros a b. split.
    + intros [H1 H2]. apply bool_decide_eq_false in H1, H2. lia.
    + intros H. split; apply bool_decide_eq_false; lia.
Qed.

(** ** A simulation with no time left *)

Lemma for_range_break_still {S : Type} (body : nat -> S -> outcome (bool * S))
    (s : S) :
  (forall i, exists b, body i s = Done (b, s)) ->
  forall n lo, for_range_break lo n body s = Done s.
Proof.
  intros Hb. induction n as [|n IH]; intros lo; simpl; [reflexivity|].
  destruct (Hb lo) as [b ->]. simpl. destruct b; [reflexivity | apply IH].
Qed.

Lemma set_rng_same (g : solver_state) : set_rng g (rng g) = g.
Proof. destruct g. reflexivity. Qed.

Section TimeUp.

Variable sundials : Sundials.
Variable log_uniform : mt19937_64 -> float * mt19937_64.
Variables reltol abstol : float.

(** A trajectory of a reaction-free model that starts with no time left and
    with [current_state] at the initial populations changes nothing. *)
Lemma run_trajectory_still (fuel : nat) (increment : float) (traj : nat)
    (g : solver_state) :
  time_left (simulation_object g) = false ->
  number_reactions (model (simulation_object g)) = 0%nat ->
  (number_species (model (simulation_object g))
   <= length (species (model (simulation_object g))))%nat ->
  current_state g = initial_populations (simulation_object g) ->
  run_trajectory sundials log_uniform reltol abstol (Datatypes.S fuel)
    increment traj g = Done g.
Proof.
  intros Htime Hnr Hsp Hcs. unfold run_trajectory.
  rewrite reset_current_state_loop_result;
    [| exact Hsp
     | rewrite Hcs; apply initial_populations_length; exact Hsp].
  rewrite <- Hcs, set_current_state_same. simpl.
  rewrite init_y0_initial_populations by assumption. simpl.
  unfold time_left in Htime. rewrite Htime. simpl.
  now rewrite set_rng_same.
Qed.

(** X15.  [current_time] is read where a call finds it and never reset: on
    a simulation with no time left, for one that has already been run, the
    solver on a reaction-free model takes no step in any trajectory.  With
    fuel for one pass it returns the simulation with the initial populations
    in the first row of the first trajectory and nothing else changed. *)
Theorem solver_with_no_time_left (fuel : nat) (sim : Simulation)
    (tau_tol : float) (p : Process) (plane : list (list float))
    (row : list float) :
  time_left sim = false ->
  number_reactions (model sim) = 0%nat ->
  (2 <= length (timeline sim))%nat ->
  (number_species (model sim) <= length (species (model sim)))%nat ->
  trajectoriesODE sim !! 0%nat = Some plane ->
  plane !! 0%nat = Some row ->
  (number_species (model sim) <= length row)%nat ->
  TauHybridCSolver sundials log_uniform reltol abstol (Datatypes.S fuel)
    (Some sim) tau_tol p
  = Done (Some (set_trajectoriesODE sim
                  (with_row (trajectoriesODE sim) 0 0
                     (number_species (model sim)) (initial_populations sim))),
          {| interrupted := interrupted p; sigint := signalHandler |}).
Proof.
  intros Htime Hnr Ht Hsp Hp Hr Hrow. unfold TauHybridCSolver.
  destruct (load_in_range "timeline" (timeline sim) 1) as (t1 & -> & _); [lia|].
  destruct (load_in_range "timeline" (timeline sim) 0) as (t0 & -> & _); [lia|].
  simpl. rewrite (copy_initial_state_loop sim plane row Hsp Hp Hr Hrow). simpl.
  unfold run_trajectories. rewrite for_range_break_still; [reflexivity|].
  intros traj. destruct (interrupted (signal_SIGINT signalHandler p));
    [eauto|].
  exists false. rewrite run_trajectory_still; auto.
Qed.

End TimeUp.

Lemma solver_with_no_time_left_witness :
  TauHybridCSolver euler (fixed_draw (-1)%float) example_tolerance
    example_tolerance 1
    (Some (set_current_time still_simulation_twice 2%float)) 0.03125%float
    process_at_start
  = Done (Some (set_trajectoriesODE
                  (set_current_time still_simulation_twice 2%float)
                  [[[5; 7]; [0; 0]; [0; 0]]; [[0; 0]; [0; 0]; [0; 0]]]%float),
          {| interrupted := false; sigint := signalHandler |}).
Proof.
  apply (solver_with_no_time_left euler (fixed_draw (-1)%float)
           example_tolerance example_tolerance 0
           (set_current_time still_simulation_twice 2%float) 0.03125%float
           process_at_start [[0; 0]; [0; 0]; [0; 0]]%float [0; 0]%float);
    try reflexivity; simpl; lia.
Defined.

(** ** The theorems above on runs of the examples *)

Lemma step_loop_never_adapts_witness :
  exists st',
    step_loop stationary (fixed_draw (-1)%float) 3 5 0 1%float
      (birth_death_state 3 0.5 (-0.25)) = Done st' /\
    tau_step st' = 1%float /\
    current_state (solver st') = [3%float] /\
    rng (solver st') = small_engine.
Proof.
  destruct (step_loop stationary (fixed_draw (-1)%float) 3 5 0 1%float
              (birth_death_state 3 0.5 (-0.25))) as [st'| |] eqn:E;
    try (vm_compute in E; discriminate E).
  exists st'. split; [reflexivity|].
  exact (step_loop_never_adapts stationary (fixed_draw (-1)%float) 3 5 0
           1%float (birth_death_state 3 0.5 (-0.25)) st' E).
Defined.

Lemma solver_writes_time_and_ODE_buffer_only_witness :
  exists sim' p',
    TauHybridCSolver euler (fixed_draw (-1)%float) example_tolerance
      example_tolerance 5 (Some still_simulation_twice) 0.03125%float
      process_at_start = Done (Some sim', p') /\
    fixed_part sim' = fixed_part still_simulation_twice /\
    trajectories sim' = trajectories still_simulation_twice /\
    trajectoriesHYBRID sim' = trajectoriesHYBRID still_simulation_twice.
Proof.
  destruct (TauHybridCSolver euler (fixed_draw (-1)%float) example_tolerance
              example_tolerance 5 (Some still_simulation_twice) 0.03125%float
              process_at_start) as [[[sim'|] p']| |] eqn:E;
    try (vm_compute in E; discriminate E).
  exists sim', p'. split; [reflexivity|].
  exact (solver_writes_time_and_ODE_buffer_only euler (fixed_draw (-1)%float)
           example_tolerance example_tolerance 5 still_simulation_twice sim'
           0.03125%float process_at_start p' E).
Defined.

Lemma solver_leaves_no_time_witness :
  exists sim' p',
    TauHybridCSolver euler (fixed_draw (-1)%float) example_tolerance
      example_tolerance 5 (Some still_simulation_twice) 0.03125%float
      process_at_start = Done (Some sim', p') /\
    time_left sim' = false /\
    end_time sim' = end_time still_simulation_twice.
Proof.
  destruct (TauHybridCSolver euler (fixed_draw (-1)%float) example_tolerance
              example_tolerance 5 (Some still_simulation_twice) 0.03125%float
              process_at_start) as [[[sim'|] p']| |] eqn:E;
    try (vm_compute in E; discriminate E).
  exists sim', p'. split; [reflexivity|].
  apply (solver_leaves_no_time euler (fixed_draw (-1)%float)
           example_tolerance example_tolerance 5 still_simulation_twice sim'
           0.03125%float process_at_start p'); [reflexivity | | exact E].
  simpl. lia.
Defined.

Lemma solver_returns_only_without_reactions_witness :
  exists sim' p',
    TauHybridCSolver euler (fixed_draw (-1)%float) example_tolerance
      example_tolerance 5 (Some still_simulation_twice) 0.03125%float
      process_at_start = Done (Some sim', p') /\
    number_reactions (model still_simulation_twice) = 0%nat /\
    (2 <= length (timeline still_simulation_twice))%nat.
Proof.
  destruct (TauHybridCSolver euler (fixed_draw (-1)%float) example_tolerance
              example_tolerance 5 (Some still_simulation_twice) 0.03125%float
              process_at_start) as [[[sim'|] p']| |] eqn:E;
    try (vm_compute in E; discriminate E).
  exists sim', p'. split; [reflexivity|].
  apply (solver_returns_only_without_reactions euler (fixed_draw (-1)%float)
           example_tolerance example_tolerance 5 still_simulation_twice sim'
           0.03125%float process_at_start p'); [reflexivity | | exact E].
  simpl. lia.
Defined.
